(** * Crypto-Arb-Bot: configuration loader and credential resolver

    A shallow embedding of [config/config.py] and
    [src/crypto_arb_bot/credentials.py], and the properties of the two
    components stated in the specification.

    Python values are an inductive type, dictionaries are stdpp finite maps
    with string keys, floats are IEEE 754 binary64 numbers in the form of
    the standard library's [spec_float], and exceptions are an error result.
    The file system, the process environment, the TOML parser and the OS
    keyring are the fields of a [World] that every effectful operation reads;
    each access is recorded in a trace. *)

From Stdlib Require Import ZArith Ascii String List Bool Lia.
From Stdlib Require Import Floats.SpecFloat.
From stdpp Require Import base option strings gmap.

Set Warnings "-register-all,-clear-no-such-hyp".

Local Open Scope string_scope.
Local Open Scope Z_scope.

(** ** Python values *)

Module Py.

(** Binary64: 53 bits of precision, infinities at exponent 1024. *)
Definition prec : Z := 53.
Definition emax : Z := 1024.

Definition float := spec_float.

(** The values a parsed TOML document (or any [Dict[str, Any]]) can hold. *)
Inductive value : Type :=
| VNone
| VBool (b : bool)
| VInt (z : Z)
| VFloat (f : float)
| VStr (s : string)
| VList (l : list value)
| VDict (d : gmap string value)
| VDatetime (iso : string).

Inductive exn : Type :=
| ConfigError (msg : string)
| CredentialError (msg : string)
| AssertionError (msg : string)
| OverflowError (msg : string)
| TypeError (msg : string)
| OtherError (msg : string).

Inductive result (A : Type) : Type :=
| Ok (a : A)
| Raise (e : exn).
Arguments Ok {A} a.
Arguments Raise {A} e.

Definition result_value {A} (r : result A) : option A :=
  match r with Ok a => Some a | Raise _ => None end.

(** [str(e)] of an exception: the message it carries. *)
Definition exn_message (e : exn) : string :=
  match e with
  | ConfigError m | CredentialError m | AssertionError m
  | OverflowError m | TypeError m | OtherError m => m
  end.

Definition b2z (b : bool) : Z := if b then 1 else 0.

Definition fzero : float := S754_zero false.

(** Truth value of an object, as [not x] and [or] test it. *)
Definition truthy (v : value) : bool :=
  match v with
  | VNone => false
  | VBool b => b
  | VInt z => negb (z =? 0)
  | VFloat f => negb (SFeqb f fzero)
  | VStr s => negb (String.eqb s "")
  | VList l => match l with [] => false | _ => true end
  | VDict d => negb (Nat.eqb (size d) 0)
  | VDatetime _ => true
  end.

(** [isinstance(v, list)], [isinstance(v, int)] (bool is a subclass of
    int), [isinstance(v, (int, float))], [isinstance(v, str)]. *)
Definition isinstance_list (v : value) : bool :=
  match v with VList _ => true | _ => false end.
Definition isinstance_int (v : value) : bool :=
  match v with VInt _ | VBool _ => true | _ => false end.
Definition isinstance_int_float (v : value) : bool :=
  match v with VInt _ | VBool _ | VFloat _ => true | _ => false end.
Definition isinstance_str (v : value) : bool :=
  match v with VStr _ => true | _ => false end.

(** Numbers: an int (a bool is the int 0 or 1) or a float. *)
Inductive num : Type :=
| NInt (z : Z)
| NFloat (f : float).

Definition as_num (v : value) : option num :=
  match v with
  | VInt z => Some (NInt z)
  | VBool b => Some (NInt (b2z b))
  | VFloat f => Some (NFloat f)
  | _ => None
  end.

(** The integer an instance of [int] stands for. *)
Definition as_int (v : value) : option Z :=
  match v with
  | VInt z => Some z
  | VBool b => Some (b2z b)
  | _ => None
  end.

(** [n <= 0] and [n < 0] against the literal 0.  An int compares
    exactly; a float is compared with 0.0, and every comparison with a
    NaN is false. *)
Definition num_le0 (n : num) : bool :=
  match n with
  | NInt z => z <=? 0
  | NFloat f => SFleb f fzero
  end.
Definition num_lt0 (n : num) : bool :=
  match n with
  | NInt z => z <? 0
  | NFloat f => SFltb f fzero
  end.

(** [float(v)]: identity on a float, the nearest double (ties to even) for
    an int, [OverflowError] when that is not finite, [TypeError] for what
    is not a number. *)
Definition float_of_int (z : Z) : result float :=
  match binary_normalize prec emax z 0 false with
  | S754_infinity _ => Raise (OverflowError "int too large to convert to float")
  | f => Ok f
  end.

Definition float_ (v : value) : result float :=
  match as_num v with
  | Some (NFloat f) => Ok f
  | Some (NInt z) => float_of_int z
  | None => Raise (TypeError "float() argument must be a string or a real number")
  end.

(** Sequencing of computations that may raise. *)
Definition bind_result {A B} (r : result A) (k : A -> result B) : result B :=
  match r with
  | Ok a => k a
  | Raise e => Raise e
  end.

(** ** Strings *)

(** [needle in hay]. *)
Fixpoint str_contains (needle hay : string) : bool :=
  String.prefix needle hay ||
  match hay with
  | EmptyString => false
  | String _ rest => str_contains needle rest
  end.

(** [str.upper] on ASCII text: the letters a-z become A-Z, every other
    character is kept. *)
Definition upper_ascii (c : ascii) : ascii :=
  let n := N_of_ascii c in
  if ((97 <=? n) && (n <=? 122))%N then ascii_of_N (n - 32) else c.

Fixpoint upper (s : string) : string :=
  match s with
  | EmptyString => EmptyString
  | String c rest => String (upper_ascii c) (upper rest)
  end.

Definition endswith_sep (s : string) : bool :=
  match String.get (Nat.pred (String.length s)) s with
  | Some c => Ascii.eqb c "/"
  | None => false
  end.

(** [os.path.join(a, b)] on POSIX. *)
Definition os_path_join (a b : string) : string :=
  if String.prefix "/" b then b
  else if String.eqb a "" || endswith_sep a then a +:+ b
  else a +:+ "/" +:+ b.

End Py.

(** ** The outside world and the effect monad *)

Module IO.
Import Py.

(** What the program reads from outside.  [toml_load] is [toml.load] of
    the third-party parser: the document as a dictionary, or the
    exception it raised.  [keyring_get_password] is the OS keyring
    backend, taken to answer with an object; the code itself does not
    trust that object to be a string or [None].  [import_cwd] is
    [os.getcwd()] when the module was imported.  Assertions are enabled
    (the interpreter does not run with -O), and strings are ASCII. *)
Record World : Type := {
  environ : gmap string string;
  isfile : string -> bool;
  toml_load : string -> result (gmap string value);
  keyring_get_password : string -> string -> value;
  import_cwd : string
}.

(** The accesses to the outside world, in the order they happen. *)
Inductive event : Type :=
| EvIsFile (path : string)
| EvTomlLoad (path : string)
| EvGetenv (name : string)
| EvKeyring (service username : string).

Definition io (A : Type) : Type := World -> result A * list event.

Definition ret {A} (a : A) : io A := fun _ => (Ok a, []).
Definition raise {A} (e : exn) : io A := fun _ => (Raise e, []).
Definition lift {A} (r : result A) : io A := fun _ => (r, []).

Definition bind {A B} (m : io A) (k : A -> io B) : io B :=
  fun w =>
    match m w with
    | (Ok a, t) => let '(r, t') := k a w in (r, (t ++ t')%list)
    | (Raise e, t) => (Raise e, t)
    end.

(** [try: m  except Exception as e: h e]. *)
Definition try_except {A} (m : io A) (h : exn -> io A) : io A :=
  fun w =>
    match m w with
    | (Ok a, t) => (Ok a, t)
    | (Raise e, t) => let '(r, t') := h e w in (r, (t ++ t')%list)
    end.

(** [assert cond, msg]. *)
Definition assert_ (cond : bool) (msg : string) : io unit :=
  if cond then ret tt else raise (AssertionError msg).

Definition os_path_isfile (path : string) : io bool :=
  fun w => (Ok (isfile w path), [EvIsFile path]).

Definition toml_load_ (path : string) : io (gmap string value) :=
  fun w => (toml_load w path, [EvTomlLoad path]).

(** [os.getenv(name)]: the variable's value, or [None]. *)
Definition os_getenv (name : string) : io (option string) :=
  fun w => (Ok (environ w !! name), [EvGetenv name]).

Definition keyring_get_password_ (service username : string) : io value :=
  fun w => (Ok (keyring_get_password w service username), [EvKeyring service username]).

(** The same world with another process environment. *)
Definition with_environ (env : gmap string string) (w : World) : World :=
  {| environ := env;
     isfile := isfile w;
     toml_load := toml_load w;
     keyring_get_password := keyring_get_password w;
     import_cwd := import_cwd w |}.

Definition outcome {A} (m : io A) (w : World) : result A := fst (m w).
Definition trace {A} (m : io A) (w : World) : list event := snd (m w).

End IO.

Declare Scope io_scope.
Delimit Scope io_scope with io.
Notation "x <- m ;; k" := (IO.bind m (fun x => k))
  (at level 100, m at next level, right associativity) : io_scope.
Notation "m ;;; k" := (IO.bind m (fun _ => k))
  (at level 100, right associativity) : io_scope.

(** ** config/config.py *)

Module Config.
Import Py IO.
Local Open Scope io_scope.

Definition CONFIG_PATH_ENV : string := "ARBBOT_CONFIG".

(** Computed once, at import, from the working directory of that moment. *)
Definition DEFAULT_CONFIG_FILE (w : World) : string :=
  os_path_join (import_cwd w) "config.toml".

(** The frozen dataclass.  The constructor stores its arguments as they
    are: [max_cycles] and [max_retries] keep the object that was checked. *)
Record Config : Type := {
  market_pairs : list value;
  max_cycles : value;
  fetch_interval : float;
  min_spread : float;
  max_retries : value
}.

Definition _read_config_file (path : string) : io (gmap string value) :=
  found <- os_path_isfile path ;;
  if negb found then
    raise (ConfigError ("Config file not found: " +:+ path))
  else
    try_except (toml_load_ path)
      (fun e => raise (ConfigError
         ("Failed to parse config (" +:+ path +:+ "): " +:+ exn_message e))).

(** [data.get(key)]: [None] for a missing key. *)
Definition dict_get (data : gmap string value) (key : string) : value :=
  match data !! key with
  | Some v => v
  | None => VNone
  end.

(** [lo <= v <= hi], evaluated on instances of [int] only. *)
Definition int_between (lo : Z) (v : value) (hi : Z) : bool :=
  match as_int v with
  | Some z => (lo <=? z) && (z <=? hi)
  | None => false
  end.

(** [v <= 0] and [v < 0], evaluated on numbers only. *)
Definition le_zero (v : value) : bool :=
  match as_num v with Some n => num_le0 n | None => false end.
Definition lt_zero (v : value) : bool :=
  match as_num v with Some n => num_lt0 n | None => false end.

Definition list_items (v : value) : list value :=
  match v with VList l => l | _ => [] end.

Definition _validate_config (data : gmap string value) : result Config :=
  let pairs := dict_get data "market_pairs" in
  let cycles := dict_get data "max_cycles" in
  let interval := dict_get data "fetch_interval" in
  let spread := dict_get data "min_spread" in
  let retries := dict_get data "max_retries" in
  if negb (isinstance_list pairs) || negb (truthy pairs) then
    Raise (ConfigError "market_pairs must be a non-empty list")
  else if negb (isinstance_int cycles) || negb (int_between 1 cycles 10000) then
    Raise (ConfigError "max_cycles must be an integer between 1 and 10000")
  else if negb (isinstance_int_float interval) || le_zero interval then
    Raise (ConfigError "fetch_interval must be a positive number")
  else if negb (isinstance_int_float spread) || lt_zero spread then
    Raise (ConfigError "min_spread must be >= 0")
  else if negb (isinstance_int retries) || negb (int_between 1 retries 100) then
    Raise (ConfigError "max_retries must be an integer between 1 and 100")
  else
    bind_result (float_ interval) (fun fi =>
    bind_result (float_ spread) (fun fs =>
    Ok {| market_pairs := list_items pairs;
          max_cycles := cycles;
          fetch_interval := fi;
          min_spread := fs;
          max_retries := retries |})).

(** [a or b] on an optional string: [a] when it is a non-empty string,
    else whatever [b] evaluates to; [b] is not evaluated in the first
    case. *)
Definition or_else (a : option string) (b : io string) : io string :=
  match a with
  | Some s => if String.eqb s "" then b else ret s
  | None => b
  end.

(** [path or os.getenv(CONFIG_PATH_ENV) or DEFAULT_CONFIG_FILE]. *)
Definition resolve_path (path : option string) : io string :=
  or_else path
    (e <- os_getenv CONFIG_PATH_ENV ;;
     or_else e (fun w => (Ok (DEFAULT_CONFIG_FILE w), []))).

Definition load_config (path : option string) : io Config :=
  cfg_path <- resolve_path path ;;
  raw <- _read_config_file cfg_path ;;
  lift (_validate_config raw).

End Config.

(** ** src/crypto_arb_bot/credentials.py *)

Module Credentials.
Import Py IO.
Local Open Scope io_scope.

Definition is_none (v : value) : bool :=
  match v with VNone => true | _ => false end.

(** An optional string as a Python object. *)
Definition of_option (o : option string) : value :=
  match o with Some s => VStr s | None => VNone end.

Definition get_api_key (service_name : value) : io value :=
  assert_ (isinstance_str service_name && truthy service_name)
    "service_name must be a non-empty string" ;;;
  match service_name with
  | VStr name =>
      key <- keyring_get_password_ "arbbot" name ;;
      key <- (if negb (truthy key)
              then (e <- os_getenv (upper name) ;; ret (of_option e))
              else ret key) ;;
      assert_ (is_none key || isinstance_str key)
        "retrieved key must be a string or None" ;;;
      if negb (truthy key) then
        raise (CredentialError
          ("API key for '" +:+ name +:+ "' not found in keyring or environment"))
      else ret key
  | _ => raise (AssertionError "service_name must be a non-empty string")
  end.

End Credentials.

(** ** The documented contract, in the specification's words *)

Module Spec.
Import Py IO Config.

(** The five required fields, in the order the loader checks them. *)
Inductive field : Type :=
| MarketPairs | MaxCycles | FetchInterval | MinSpread | MaxRetries.

Definition field_name (f : field) : string :=
  match f with
  | MarketPairs => "market_pairs"
  | MaxCycles => "max_cycles"
  | FetchInterval => "fetch_interval"
  | MinSpread => "min_spread"
  | MaxRetries => "max_retries"
  end.

(** Documented bounds on the input values (section 3 of the
    specification): a non-empty list, an integer in a closed range, a
    number above zero, a number that is not negative. *)
Definition nonempty_list (v : value) : Prop :=
  exists x l, v = VList (x :: l).
Definition integer_in (lo hi : Z) (v : value) : Prop :=
  exists z, v = VInt z /\ lo <= z <= hi.
Definition number_gt0 (v : value) : Prop :=
  (exists z, v = VInt z /\ 0 < z) \/
  (exists f, v = VFloat f /\ SFltb fzero f = true).
Definition number_ge0 (v : value) : Prop :=
  (exists z, v = VInt z /\ 0 <= z) \/
  (exists f, v = VFloat f /\ SFleb fzero f = true).

Definition documented (f : field) (v : value) : Prop :=
  match f with
  | MarketPairs => nonempty_list v
  | MaxCycles => integer_in 1 10000 v
  | FetchInterval => number_gt0 v
  | MinSpread => number_ge0 v
  | MaxRetries => integer_in 1 100 v
  end.

(** Documented bounds on a returned Configuration. *)
Definition in_bounds (c : Config) : Prop :=
  market_pairs c <> [] /\
  (exists z, as_int (max_cycles c) = Some z /\ 1 <= z <= 10000) /\
  SFltb fzero (fetch_interval c) = true /\
  SFleb fzero (min_spread c) = true /\
  (exists z, as_int (max_retries c) = Some z /\ 1 <= z <= 100).

(** What the loader turns down, stated on the raw value of a field.  A
    boolean counts as the integer 0 or 1.  Nothing is said here about a
    float that is not a number. *)
Definition is_list (v : value) : Prop := exists l, v = VList l.
Definition is_int_or_bool (v : value) : Prop :=
  (exists z, v = VInt z) \/ (exists b, v = VBool b).
Definition is_number_or_bool (v : value) : Prop :=
  is_int_or_bool v \/ (exists f, v = VFloat f).

Definition bad_list (v : value) : Prop :=
  ~ is_list v \/ v = VList [].
Definition bad_count (lo hi : Z) (v : value) : Prop :=
  ~ is_int_or_bool v \/
  (exists z, v = VInt z /\ (z < lo \/ hi < z)) \/
  (exists b, v = VBool b /\ (b2z b < lo \/ hi < b2z b)).
Definition bad_positive (v : value) : Prop :=
  ~ is_number_or_bool v \/
  (exists z, v = VInt z /\ z <= 0) \/
  v = VBool false \/
  (exists f, v = VFloat f /\ SFleb f fzero = true).
Definition bad_nonnegative (v : value) : Prop :=
  ~ is_number_or_bool v \/
  (exists z, v = VInt z /\ z < 0) \/
  (exists f, v = VFloat f /\ SFltb f fzero = true).

Definition bad_value (f : field) (v : value) : Prop :=
  match f with
  | MarketPairs => bad_list v
  | MaxCycles => bad_count 1 10000 v
  | FetchInterval => bad_positive v
  | MinSpread => bad_nonnegative v
  | MaxRetries => bad_count 1 100 v
  end.

(** A field is rejected when it is missing or its value is bad. *)
Definition rejected (data : gmap string value) (f : field) : Prop :=
  match data !! field_name f with
  | None => True
  | Some v => bad_value f v
  end.

(** The fields checked before [g]. *)
Definition checked_before (h g : field) : Prop :=
  match h, g with
  | MarketPairs, (MaxCycles | FetchInterval | MinSpread | MaxRetries)
  | MaxCycles, (FetchInterval | MinSpread | MaxRetries)
  | FetchInterval, (MinSpread | MaxRetries)
  | MinSpread, MaxRetries => True
  | _, _ => False
  end.

(** The file at [p] exists and parses to the mapping [data]. *)
Definition parses_to (w : World) (p : string) (data : gmap string value) : Prop :=
  isfile w p = true /\ toml_load w p = Ok data.

(** The paths handed to the parser. *)
Fixpoint files_read (t : list event) : list string :=
  match t with
  | [] => []
  | EvTomlLoad p :: t' => p :: files_read t'
  | _ :: t' => files_read t'
  end.

(** The paths tested for being a regular file. *)
Fixpoint files_probed (t : list event) : list string :=
  match t with
  | [] => []
  | EvIsFile p :: t' => p :: files_probed t'
  | _ :: t' => files_probed t'
  end.

(** The environment variables consulted. *)
Fixpoint env_reads (t : list event) : list string :=
  match t with
  | [] => []
  | EvGetenv n :: t' => n :: env_reads t'
  | _ :: t' => env_reads t'
  end.

(** [load_config path] in world [w] goes to the file at [p] and to no
    other: [p] is the resolved path, the only path probed, and what the
    call returns is what reading and validating [p] returns. *)
Definition loads_from (w : World) (path : option string) (p : string) : Prop :=
  outcome (resolve_path path) w = Ok p /\
  files_probed (trace (load_config path) w) = [p] /\
  (forall q, In q (files_read (trace (load_config path) w)) -> q = p) /\
  outcome (load_config path) w =
    bind_result (outcome (_read_config_file p) w) _validate_config.

Definition absent (o : option string) : Prop := o = None \/ o = Some "".

(** The text of the error for a credential found in neither source. *)
Definition not_found_message (n : string) : string :=
  "API key for '" +:+ n +:+ "' not found in keyring or environment".

End Spec.

(** ** Concrete worlds *)

Module Scenario.
Import Py IO Config.

(** 5.0 and 0.002 as doubles. *)
Definition f5_0 : float := S754_finite false 5629499534213120 (-50).
Definition f0_002 : float := S754_finite false 4611686018427388 (-61).

(** The specification's scenario: [market_pairs=["BTC-USD","ETH-USD"]],
    [max_cycles=100], [fetch_interval=5.0], [min_spread=0.002],
    [max_retries=3]. *)
Definition sample : gmap string value :=
  <["market_pairs" := VList [VStr "BTC-USD"; VStr "ETH-USD"]]>
  (<["max_cycles" := VInt 100]>
  (<["fetch_interval" := VFloat f5_0]>
  (<["min_spread" := VFloat f0_002]>
  (<["max_retries" := VInt 3]> ∅)))).

Definition no_keyring : string -> string -> value := fun _ _ => VNone.

(** A world whose only file is [/bot/config.toml], holding [data]; the
    process was started in [/bot] with [ARBBOT_CONFIG] unset. *)
Definition world_with (data : gmap string value) : World :=
  {| environ := ∅;
     isfile := fun p => String.eqb p "/bot/config.toml";
     toml_load := fun p =>
       if String.eqb p "/bot/config.toml" then Ok data
       else Raise (OtherError "No such file or directory");
     keyring_get_password := no_keyring;
     import_cwd := "/bot" |}.

(** [sample] with one field replaced. *)
Definition sample_big_interval : gmap string value :=
  <["fetch_interval" := VInt (2 ^ 1024)]> sample.
Definition sample_bool_cycles : gmap string value :=
  <["max_cycles" := VBool true]> sample.
Definition sample_nan_interval : gmap string value :=
  <["fetch_interval" := VFloat S754_nan]> sample.
Definition sample_zero_cycles : gmap string value :=
  <["max_cycles" := VInt 0]> sample.

(** Three different files, one per tier: the explicit path [/a.toml],
    the override [/e.toml] named by [ARBBOT_CONFIG], and the default
    [/bot/config.toml].  They differ in [max_cycles]. *)
Definition tier_file (n : Z) : gmap string value :=
  <["max_cycles" := VInt n]> sample.

Definition tiers (env : gmap string string) : World :=
  {| environ := env;
     isfile := fun p =>
       String.eqb p "/a.toml" || String.eqb p "/e.toml" || String.eqb p "/bot/config.toml";
     toml_load := fun p =>
       if String.eqb p "/a.toml" then Ok (tier_file 1)
       else if String.eqb p "/e.toml" then Ok (tier_file 2)
       else if String.eqb p "/bot/config.toml" then Ok (tier_file 3)
       else Raise (OtherError "No such file or directory");
     keyring_get_password := no_keyring;
     import_cwd := "/bot" |}.

Definition env_override : gmap string string := {[ "ARBBOT_CONFIG" := "/e.toml" ]}.
Definition env_empty_override : gmap string string := {[ "ARBBOT_CONFIG" := "" ]}.

(** A world with nothing on disk. *)
Definition bare : World :=
  {| environ := ∅;
     isfile := fun _ => false;
     toml_load := fun _ => Raise (OtherError "No such file or directory");
     keyring_get_password := no_keyring;
     import_cwd := "/bot" |}.

(** Credential worlds: what the keyring holds for [kraken] under
    [arbbot], and the process environment. *)
Definition keyring_of (stored : value) : string -> string -> value :=
  fun service username =>
    if String.eqb service "arbbot" && String.eqb username "kraken"
    then stored else VNone.

Definition cred_world (stored : value) (env : gmap string string) : World :=
  {| environ := env;
     isfile := fun _ => false;
     toml_load := fun _ => Raise (OtherError "No such file or directory");
     keyring_get_password := keyring_of stored;
     import_cwd := "/bot" |}.

Definition env_kraken : gmap string string := {[ "KRAKEN" := "env-secret" ]}.

End Scenario.

(** ** Further observations on the two modules *)

Module Further.
Import Py IO Config Credentials.

(** The keys [_validate_config] reads. *)
Definition required_keys : list string :=
  ["market_pairs"; "max_cycles"; "fetch_interval"; "min_spread"; "max_retries"].

(** The texts [_validate_config] raises [ConfigError] with. *)
Definition validation_messages : list string :=
  ["market_pairs must be a non-empty list";
   "max_cycles must be an integer between 1 and 10000";
   "fetch_interval must be a positive number";
   "min_spread must be >= 0";
   "max_retries must be an integer between 1 and 100"].

Definition overflow_message : string := "int too large to convert to float".

(** The fields of a [Config] as a mapping, as [dataclasses.asdict] gives
    them. *)
Definition asdict (c : Config) : gmap string value :=
  <["market_pairs" := VList (market_pairs c)]>
  (<["max_cycles" := max_cycles c]>
  (<["fetch_interval" := VFloat (fetch_interval c)]>
  (<["min_spread" := VFloat (min_spread c)]>
  (<["max_retries" := max_retries c]> ∅)))).

(** The keyring entries looked up. *)
Fixpoint keyring_reads (t : list event) : list (string * string) :=
  match t with
  | [] => []
  | EvKeyring s u :: t' => (s, u) :: keyring_reads t'
  | _ :: t' => keyring_reads t'
  end.

(** A world whose file [/bot/config.toml] exists and does not parse. *)
Definition broken_file : World :=
  {| environ := ∅;
     isfile := fun p => String.eqb p "/bot/config.toml";
     toml_load := fun _ => Raise (OtherError "Invalid date or number (line 3 column 1 char 40)");
     keyring_get_password := fun _ _ => VNone;
     import_cwd := "/bot" |}.

(** A keyring with entries outside the [arbbot] service only. *)
Definition foreign_keyring : string -> string -> value :=
  fun service _ => if String.eqb service "arbbot" then VNone else VStr "other-app-secret".

End Further.

(** * Properties *)

Import Py IO Config Credentials Spec.

(** ** Strings *)

Lemma prefix_app (n rest : string) : String.prefix n (n +:+ rest) = true.
Proof.
  induction n as [|c n IH]; simpl.
  - destruct rest; reflexivity.
  - destruct (Ascii.ascii_dec c c) as [_|Hc]; [exact IH | contradiction].
Qed.

Lemma str_contains_prefix (n hay : string) :
  String.prefix n hay = true -> str_contains n hay = true.
Proof. intros H. destruct hay; simpl in *; rewrite H; reflexivity. Qed.

Lemma str_contains_app (n before after : string) :
  str_contains n (before +:+ n +:+ after) = true.
Proof.
  induction before as [|c before IH].
  - change (str_contains n (n +:+ after) = true).
    apply str_contains_prefix, prefix_app.
  - simpl. rewrite IH. apply orb_true_r.
Qed.

Lemma str_contains_suffix (n before : string) :
  str_contains n (before +:+ n) = true.
Proof.
  pose proof (str_contains_app n before "") as H.
  replace (n +:+ "") with n in H; [exact H|].
  clear H. induction n as [|c n IH]; [reflexivity|].
  change (String c n = String c (n +:+ "")). f_equal. exact IH.
Qed.

Lemma eqb_empty_false (s : string) : s <> "" -> String.eqb s "" = false.
Proof. intros H. apply String.eqb_neq. exact H. Qed.

(** ** Floats *)

Lemma float_of_float (f : float) : float_ (VFloat f) = Ok f.
Proof. reflexivity. Qed.

Lemma gt0_not_le0 (f : float) : SFltb fzero f = true -> SFleb f fzero = false.
Proof. destruct f as [s|s| |s m e]; try destruct s; cbv; congruence. Qed.

Lemma ge0_not_lt0 (f : float) : SFleb fzero f = true -> SFltb f fzero = false.
Proof. destruct f as [s|s| |s m e]; try destruct s; cbv; congruence. Qed.

Lemma nan_not_le0 : SFleb S754_nan fzero = false /\ SFltb fzero S754_nan = false.
Proof. split; reflexivity. Qed.

(** ** Integers converted to doubles *)

Lemma shr_1_halves (mrs : shr_record) :
  0 <= shr_m mrs -> shr_m (shr_1 mrs) = Z.shiftr (shr_m mrs) 1.
Proof.
  destruct mrs as [m r s]. simpl shr_m. intros Hm.
  rewrite <- Z.div2_spec.
  destruct m as [|[p|p|]|p]; try reflexivity; lia.
Qed.

Lemma iter_shr_1_shifts (p : positive) :
  forall mrs, 0 <= shr_m mrs ->
    shr_m (SpecFloat.iter_pos shr_1 p mrs) = Z.shiftr (shr_m mrs) (Zpos p).
Proof.
  induction p as [p IH | p IH |]; intros mrs Hm.
  - change (SpecFloat.iter_pos shr_1 p~1 mrs)
      with (SpecFloat.iter_pos shr_1 p (SpecFloat.iter_pos shr_1 p (shr_1 mrs))).
    assert (H1 : 0 <= shr_m (shr_1 mrs)).
    { rewrite shr_1_halves by exact Hm. apply Z.shiftr_nonneg. exact Hm. }
    assert (H2 : 0 <= shr_m (SpecFloat.iter_pos shr_1 p (shr_1 mrs))).
    { rewrite IH by exact H1. apply Z.shiftr_nonneg. exact H1. }
    rewrite IH, IH, shr_1_halves by assumption.
    rewrite !Z.shiftr_shiftr by lia. f_equal. lia.
  - change (SpecFloat.iter_pos shr_1 p~0 mrs)
      with (SpecFloat.iter_pos shr_1 p (SpecFloat.iter_pos shr_1 p mrs)).
    assert (H1 : 0 <= shr_m (SpecFloat.iter_pos shr_1 p mrs)).
    { rewrite IH by exact Hm. apply Z.shiftr_nonneg. exact Hm. }
    rewrite IH, IH by assumption.
    rewrite Z.shiftr_shiftr by lia. f_equal. lia.
  - apply shr_1_halves. exact Hm.
Qed.

Lemma digits2_pos_lower (m : positive) :
  2 ^ (Zpos (digits2_pos m) - 1) <= Zpos m.
Proof.
  induction m as [m IH | m IH |]; cbn [digits2_pos].
  - rewrite Pos2Z.inj_succ.
    replace (Z.succ (Zpos (digits2_pos m)) - 1) with (Z.succ (Zpos (digits2_pos m) - 1)) by lia.
    rewrite Z.pow_succ_r by lia. lia.
  - rewrite Pos2Z.inj_succ.
    replace (Z.succ (Zpos (digits2_pos m)) - 1) with (Z.succ (Zpos (digits2_pos m) - 1)) by lia.
    rewrite Z.pow_succ_r by lia. lia.
  - simpl. lia.
Qed.

Lemma shr_record_of_loc_m (m : Z) (l : location) :
  shr_m (shr_record_of_loc m l) = m.
Proof. destruct l as [|[]]; reflexivity. Qed.

(** Shifting a positive mantissa down to the precision of the format
    leaves a positive mantissa. *)
Lemma shr_fexp_positive (px : positive) (e : Z) (l : location)
      (mrs : shr_record) (e' : Z) :
  emin prec emax <= e ->
  shr_fexp prec emax (Zpos px) e l = (mrs, e') ->
  0 < shr_m mrs /\ emin prec emax <= e'.
Proof.
  intros He. unfold shr_fexp, shr.
  pose proof (digits2_pos_lower px) as Hd.
  cbn [Zdigits2].
  destruct (fexp prec emax (Zpos (digits2_pos px) + e) - e) as [|n|n] eqn:Hn;
    intros [= <- <-]; rewrite ?shr_record_of_loc_m; try (split; lia).
  rewrite iter_shr_1_shifts by (rewrite shr_record_of_loc_m; lia).
  rewrite shr_record_of_loc_m, Z.shiftr_div_pow2 by lia.
  split; [|lia].
  apply Z.div_str_pos. split; [apply Z.pow_pos_nonneg; lia|].
  eapply Z.le_trans; [|exact Hd].
  apply Z.pow_le_mono_r; [lia|].
  unfold fexp, emin, prec, emax in *. lia.
Qed.

Lemma round_nearest_even_ge (mx : Z) (lx : location) :
  mx <= round_nearest_even mx lx.
Proof.
  unfold round_nearest_even. destruct lx as [|[]]; try lia.
  destruct (Z.even mx); lia.
Qed.

Lemma binary_round_aux_positive (px : positive) (e : Z) :
  emin prec emax <= e ->
  (exists m e'', binary_round_aux prec emax false (Zpos px) e loc_Exact =
                 S754_finite false m e'') \/
  binary_round_aux prec emax false (Zpos px) e loc_Exact = S754_infinity false.
Proof.
  intros He. unfold binary_round_aux.
  destruct (shr_fexp prec emax (Zpos px) e loc_Exact) as [mrs' e'] eqn:H1.
  destruct (shr_fexp_positive px e loc_Exact mrs' e' He H1) as [Hm' He'].
  pose proof (round_nearest_even_ge (shr_m mrs') (loc_of_shr_record mrs')) as Hr.
  destruct (round_nearest_even (shr_m mrs') (loc_of_shr_record mrs')) as [|qx|qx];
    try lia.
  destruct (shr_fexp prec emax (Zpos qx) e' loc_Exact) as [mrs'' e''] eqn:H2.
  destruct (shr_fexp_positive qx e' loc_Exact mrs'' e'' He' H2) as [Hm'' _].
  destruct (shr_m mrs'') as [|m|m]; try lia.
  destruct (e'' <=? emax - prec); eauto.
Qed.

Lemma float_of_int_positive (z : Z) (f : float) :
  0 < z -> float_of_int z = Ok f -> exists m e, f = S754_finite false m e.
Proof.
  intros Hz. unfold float_of_int, binary_normalize.
  destruct z as [|px|px]; try lia.
  unfold binary_round, shl_align.
  assert (Hemin : emin prec emax <= 0) by (unfold emin, prec, emax; lia).
  assert (Hfexp : emin prec emax <= fexp prec emax (Zpos (digits2_pos px) + 0))
    by (unfold fexp; lia).
  destruct (fexp prec emax (Zpos (digits2_pos px) + 0) - 0) as [|d|d].
  - destruct (binary_round_aux_positive px 0 Hemin) as [(m & e & ->) | ->];
      [intros [= <-]; eauto | discriminate].
  - destruct (binary_round_aux_positive px 0 Hemin) as [(m & e & ->) | ->];
      [intros [= <-]; eauto | discriminate].
  - destruct (binary_round_aux_positive (Pos.iter xO px d) _ Hfexp) as [(m & e & ->) | ->];
      [intros [= <-]; eauto | discriminate].
Qed.

Lemma float_of_int_gt0 (z : Z) (f : float) :
  0 < z -> float_of_int z = Ok f -> SFltb fzero f = true.
Proof.
  intros Hz Hf. destruct (float_of_int_positive z f Hz Hf) as (m & e & ->).
  reflexivity.
Qed.

Lemma float_of_int_ge0 (z : Z) (f : float) :
  0 <= z -> float_of_int z = Ok f -> SFleb fzero f = true.
Proof.
  intros Hz Hf. destruct (Z.eq_dec z 0) as [-> | Hne].
  - injection Hf as <-. reflexivity.
  - destruct (float_of_int_positive z f ltac:(lia) Hf) as (m & e & ->).
    reflexivity.
Qed.

(** ** Path resolution and reading *)

Section Loader.
Variable w : World.

Lemma resolve_path_explicit (p : string) :
  p <> "" -> resolve_path (Some p) w = (Ok p, []).
Proof.
  intros H. unfold resolve_path, or_else.
  rewrite (eqb_empty_false _ H). reflexivity.
Qed.

Lemma resolve_path_absent (path : option string) :
  absent path -> resolve_path path w = resolve_path None w.
Proof. intros [-> | ->]; reflexivity. Qed.

Lemma resolve_path_env (e : string) :
  environ w !! CONFIG_PATH_ENV = Some e -> e <> "" ->
  resolve_path None w = (Ok e, [EvGetenv CONFIG_PATH_ENV]).
Proof.
  intros He Hne. unfold resolve_path, or_else, bind, os_getenv.
  rewrite He, (eqb_empty_false _ Hne). reflexivity.
Qed.

Lemma resolve_path_default :
  absent (environ w !! CONFIG_PATH_ENV) ->
  resolve_path None w = (Ok (DEFAULT_CONFIG_FILE w), [EvGetenv CONFIG_PATH_ENV]).
Proof.
  intros [He | He]; unfold resolve_path, or_else, bind, os_getenv;
    rewrite He; reflexivity.
Qed.

(** Resolution never fails and touches no file. *)
Lemma resolve_path_total (path : option string) :
  exists p t, resolve_path path w = (Ok p, t) /\
              files_probed t = [] /\ files_read t = [].
Proof.
  destruct path as [p|].
  - destruct (String.eqb_spec p "") as [-> | Hp].
    + rewrite (resolve_path_absent (Some "")) by (right; reflexivity).
      destruct (environ w !! CONFIG_PATH_ENV) as [e|] eqn:He.
      * destruct (String.eqb_spec e "") as [-> | Hne].
        -- rewrite resolve_path_default by (right; exact He). eauto.
        -- rewrite (resolve_path_env e) by assumption. eauto.
      * rewrite resolve_path_default by (left; exact He). eauto.
    + rewrite resolve_path_explicit by assumption. eauto.
  - destruct (environ w !! CONFIG_PATH_ENV) as [e|] eqn:He.
    + destruct (String.eqb_spec e "") as [-> | Hne].
      * rewrite resolve_path_default by (right; exact He). eauto.
      * rewrite (resolve_path_env e) by assumption. eauto.
    + rewrite resolve_path_default by (left; exact He). eauto.
Qed.

Lemma read_config_file_run (p : string) :
  _read_config_file p w =
    if isfile w p then
      match toml_load w p with
      | Ok raw => (Ok raw, [EvIsFile p; EvTomlLoad p])
      | Raise e =>
          (Raise (ConfigError
             ("Failed to parse config (" +:+ p +:+ "): " +:+ exn_message e)),
           [EvIsFile p; EvTomlLoad p])
      end
    else (Raise (ConfigError ("Config file not found: " +:+ p)), [EvIsFile p]).
Proof.
  unfold _read_config_file, bind, os_path_isfile, try_except, toml_load_, raise.
  destruct (isfile w p); simpl; [|reflexivity].
  destruct (toml_load w p); reflexivity.
Qed.

Lemma load_config_run (path : option string) (p : string) (t : list event) :
  resolve_path path w = (Ok p, t) ->
  load_config path w =
    (bind_result (outcome (_read_config_file p) w) _validate_config,
     (t ++ trace (_read_config_file p) w)%list).
Proof.
  intros Hr. unfold load_config, bind at 1. rewrite Hr.
  unfold bind, outcome, trace, lift.
  destruct (_read_config_file p w) as [[raw | e] t']; simpl.
  - rewrite app_nil_r. reflexivity.
  - reflexivity.
Qed.

Lemma outcome_resolve (path : option string) (p : string) :
  outcome (resolve_path path) w = Ok p ->
  exists t, resolve_path path w = (Ok p, t) /\
            files_probed t = [] /\ files_read t = [].
Proof.
  intros H. destruct (resolve_path_total path) as (q & t & Hq & H1 & H2).
  unfold outcome in H. rewrite Hq in H. simpl in H.
  injection H as ->. eauto.
Qed.

Lemma files_probed_app (t1 t2 : list event) :
  files_probed (t1 ++ t2) = (files_probed t1 ++ files_probed t2)%list.
Proof.
  induction t1 as [|[] t1 IH]; simpl; rewrite ?IH; reflexivity.
Qed.

Lemma files_read_app (t1 t2 : list event) :
  files_read (t1 ++ t2) = (files_read t1 ++ files_read t2)%list.
Proof.
  induction t1 as [|[] t1 IH]; simpl; rewrite ?IH; reflexivity.
Qed.

(** Whatever the resolved path is, the load goes to that file alone. *)
Lemma loads_from_resolved (path : option string) (p : string) :
  outcome (resolve_path path) w = Ok p -> loads_from w path p.
Proof.
  intros H. destruct (outcome_resolve path p H) as (t & Ht & Hp & Hr).
  unfold loads_from. split; [exact H|].
  unfold trace at 1 2, outcome at 1.
  rewrite (load_config_run path p t Ht). simpl.
  rewrite files_probed_app, files_read_app, Hp, Hr. simpl.
  unfold trace. rewrite read_config_file_run.
  destruct (isfile w p); [destruct (toml_load w p)|]; simpl;
    (split; [reflexivity|]); (split; [|reflexivity]);
    intros q Hq; simpl in Hq; intuition.
Qed.

Lemma load_config_parsed (path : option string) (p : string)
      (data : gmap string value) :
  outcome (resolve_path path) w = Ok p -> parses_to w p data ->
  outcome (load_config path) w = _validate_config data.
Proof.
  intros H [Hf Hl]. destruct (loads_from_resolved path p H) as (_ & _ & _ & ->).
  unfold outcome. rewrite read_config_file_run, Hf, Hl. reflexivity.
Qed.

End Loader.

(** ** Validation: each check of [_validate_config] against the contract *)

Lemma bad_list_iff (v : value) :
  negb (isinstance_list v) || negb (truthy v) = true <-> bad_list v.
Proof.
  unfold bad_list. destruct v as [| | | | |[|x l]| |]; simpl;
    unfold is_list; split; intros; try discriminate; naive_solver.
Qed.

Lemma bad_count_iff (lo hi : Z) (v : value) :
  negb (isinstance_int v) || negb (int_between lo v hi) = true <->
  bad_count lo hi v.
Proof.
  unfold bad_count, int_between.
  destruct v as [|b|z| | | | |]; simpl;
    unfold is_int_or_bool; try (split; intros; try discriminate; naive_solver).
  - destruct (Z.leb_spec lo (b2z b)), (Z.leb_spec (b2z b) hi); simpl;
      split; intros; try discriminate; naive_solver lia.
  - destruct (Z.leb_spec lo z), (Z.leb_spec z hi); simpl;
      split; intros; try discriminate; naive_solver lia.
Qed.

Lemma bad_positive_iff (v : value) :
  negb (isinstance_int_float v) || le_zero v = true <-> bad_positive v.
Proof.
  unfold bad_positive, le_zero.
  destruct v as [|b|z|f| | | |]; simpl;
    unfold is_number_or_bool, is_int_or_bool;
    try (split; intros; try discriminate; naive_solver).
  - destruct b; simpl; split; intros; try discriminate; naive_solver.
  - destruct (Z.leb_spec z 0); split; intros; try discriminate; naive_solver lia.
Qed.

Lemma bad_nonnegative_iff (v : value) :
  negb (isinstance_int_float v) || lt_zero v = true <-> bad_nonnegative v.
Proof.
  unfold bad_nonnegative, lt_zero.
  destruct v as [|b|z|f| | | |]; simpl;
    unfold is_number_or_bool, is_int_or_bool;
    try (split; intros; try discriminate; naive_solver).
  - destruct b; simpl; split; intros; try discriminate; naive_solver.
  - destruct (Z.ltb_spec z 0); split; intros; try discriminate; naive_solver lia.
Qed.

(** A field is rejected exactly when its check in [_validate_config]
    fires; a missing key reads as [None], which every check turns down. *)

Ltac rejected_by lem :=
  unfold rejected, dict_get, field_name;
  match goal with
  | |- match ?o with _ => _ end <-> _ =>
      destruct o as [v|]; simpl;
      [ symmetry; apply lem | split; [reflexivity | exact (fun _ => I)] ]
  end.

Lemma rejected_market_pairs (data : gmap string value) :
  rejected data MarketPairs <->
  negb (isinstance_list (dict_get data "market_pairs"))
    || negb (truthy (dict_get data "market_pairs")) = true.
Proof. rejected_by bad_list_iff. Qed.

Lemma rejected_max_cycles (data : gmap string value) :
  rejected data MaxCycles <->
  negb (isinstance_int (dict_get data "max_cycles"))
    || negb (int_between 1 (dict_get data "max_cycles") 10000) = true.
Proof. rejected_by (bad_count_iff 1 10000). Qed.

Lemma rejected_fetch_interval (data : gmap string value) :
  rejected data FetchInterval <->
  negb (isinstance_int_float (dict_get data "fetch_interval"))
    || le_zero (dict_get data "fetch_interval") = true.
Proof. rejected_by bad_positive_iff. Qed.

Lemma rejected_min_spread (data : gmap string value) :
  rejected data MinSpread <->
  negb (isinstance_int_float (dict_get data "min_spread"))
    || lt_zero (dict_get data "min_spread") = true.
Proof. rejected_by bad_nonnegative_iff. Qed.

Lemma rejected_max_retries (data : gmap string value) :
  rejected data MaxRetries <->
  negb (isinstance_int (dict_get data "max_retries"))
    || negb (int_between 1 (dict_get data "max_retries") 100) = true.
Proof. rejected_by (bad_count_iff 1 100). Qed.

(** When some field is rejected, validation raises [ConfigError] naming
    the first rejected field. *)
Lemma validate_config_rejects (data : gmap string value) (f : field) :
  rejected data f ->
  exists g msg,
    _validate_config data = Raise (ConfigError msg) /\
    str_contains (field_name g) msg = true /\
    rejected data g /\
    (forall h, checked_before h g -> ~ rejected data h).
Proof.
  intros Hf. unfold _validate_config.
  pose proof (rejected_market_pairs data) as H1.
  pose proof (rejected_max_cycles data) as H2.
  pose proof (rejected_fetch_interval data) as H3.
  pose proof (rejected_min_spread data) as H4.
  pose proof (rejected_max_retries data) as H5.
  destruct (negb (isinstance_list _) || _) eqn:E1.
  { exists MarketPairs. eexists. split; [reflexivity|]. split; [reflexivity|]. split; [tauto|].
    intros []; simpl; tauto. }
  destruct (negb (isinstance_int (dict_get data "max_cycles")) || _) eqn:E2.
  { exists MaxCycles. eexists. split; [reflexivity|]. split; [reflexivity|]. split; [tauto|].
    intros []; simpl; try tauto. intros _ H. apply H1 in H. discriminate. }
  destruct (negb (isinstance_int_float (dict_get data "fetch_interval")) || _) eqn:E3.
  { exists FetchInterval. eexists. split; [reflexivity|]. split; [reflexivity|]. split; [tauto|].
    intros []; simpl; try tauto; intros _ H;
      [apply H1 in H | apply H2 in H]; discriminate. }
  destruct (negb (isinstance_int_float (dict_get data "min_spread")) || _) eqn:E4.
  { exists MinSpread. eexists. split; [reflexivity|]. split; [reflexivity|]. split; [tauto|].
    intros []; simpl; try tauto; intros _ H;
      [apply H1 in H | apply H2 in H | apply H3 in H]; discriminate. }
  destruct (negb (isinstance_int (dict_get data "max_retries")) || _) eqn:E5.
  { exists MaxRetries. eexists. split; [reflexivity|]. split; [reflexivity|]. split; [tauto|].
    intros []; simpl; try tauto; intros _ H;
      [apply H1 in H | apply H2 in H | apply H3 in H | apply H4 in H]; discriminate. }
  exfalso. destruct f;
    [apply H1 in Hf | apply H2 in Hf | apply H3 in Hf | apply H4 in Hf | apply H5 in Hf];
    discriminate.
Qed.

(** Values inside the documented bounds pass their check. *)

Lemma in_range_passes (lo hi z : Z) :
  lo <= z <= hi ->
  negb (isinstance_int (VInt z)) || negb (int_between lo (VInt z) hi) = false.
Proof.
  intros [Hlo Hhi]. unfold int_between. simpl.
  apply Z.leb_le in Hlo, Hhi. rewrite Hlo, Hhi. reflexivity.
Qed.

Lemma gt0_passes (v : value) :
  number_gt0 v -> negb (isinstance_int_float v) || le_zero v = false.
Proof.
  intros [(z & -> & Hz) | (f & -> & Hf)]; unfold le_zero; simpl.
  - apply Z.leb_gt. exact Hz.
  - apply gt0_not_le0. exact Hf.
Qed.

Lemma ge0_passes (v : value) :
  number_ge0 v -> negb (isinstance_int_float v) || lt_zero v = false.
Proof.
  intros [(z & -> & Hz) | (f & -> & Hf)]; unfold lt_zero; simpl.
  - apply Z.ltb_ge. exact Hz.
  - apply ge0_not_lt0. exact Hf.
Qed.

Lemma validate_config_accepts (data : gmap string value)
      (pairs : list value) (cycles retries : Z) (interval spread : value)
      (fi fs : float) :
  data !! "market_pairs" = Some (VList pairs) -> pairs <> [] ->
  data !! "max_cycles" = Some (VInt cycles) -> 1 <= cycles <= 10000 ->
  data !! "fetch_interval" = Some interval -> number_gt0 interval ->
  float_ interval = Ok fi ->
  data !! "min_spread" = Some spread -> number_ge0 spread ->
  float_ spread = Ok fs ->
  data !! "max_retries" = Some (VInt retries) -> 1 <= retries <= 100 ->
  _validate_config data =
    Ok {| market_pairs := pairs;
          max_cycles := VInt cycles;
          fetch_interval := fi;
          min_spread := fs;
          max_retries := VInt retries |}.
Proof.
  intros Hp Hne Hc Hcr Hi Hgt Hfi Hs Hge Hfs Hr Hrr.
  unfold _validate_config, dict_get.
  rewrite Hp, Hc, Hi, Hs, Hr.
  destruct pairs as [|x pairs]; [contradiction|].
  cbn [isinstance_list truthy negb orb list_items].
  rewrite (in_range_passes 1 10000 cycles Hcr), (gt0_passes interval Hgt),
    (ge0_passes spread Hge), (in_range_passes 1 100 retries Hrr).
  rewrite Hfi, Hfs. reflexivity.
Qed.

(** What a passed check says about the value. *)

Lemma passed_list_check (v : value) :
  negb (isinstance_list v) || negb (truthy v) = false ->
  exists x l, v = VList (x :: l).
Proof.
  destruct v as [| | | | |[|x l]| |]; simpl; try discriminate. eauto.
Qed.

Lemma passed_count_check (lo hi : Z) (v : value) :
  negb (isinstance_int v) || negb (int_between lo v hi) = false ->
  exists z, as_int v = Some z /\ lo <= z <= hi.
Proof.
  unfold int_between.
  destruct v as [|b|z| | | | |]; simpl; try discriminate; intros H;
    apply negb_false_iff, andb_true_iff in H; destruct H as [H1 H2];
    apply Z.leb_le in H1, H2; eauto.
Qed.

Lemma passed_positive_check (v : value) (f : float) :
  negb (isinstance_int_float v) || le_zero v = false ->
  float_ v = Ok f ->
  f = S754_nan \/ SFltb fzero f = true.
Proof.
  unfold le_zero, float_.
  destruct v as [|b|z|g| | | |]; simpl; try discriminate; intros Hc Hf.
  - right. apply (float_of_int_gt0 (b2z b)); [|exact Hf].
    destruct b; [reflexivity | discriminate].
  - right. apply (float_of_int_gt0 z); [|exact Hf].
    apply Z.leb_gt. exact Hc.
  - injection Hf as <-.
    destruct g as [s|s| |s m e]; try destruct s; try discriminate; auto.
Qed.

Lemma passed_nonnegative_check (v : value) (f : float) :
  negb (isinstance_int_float v) || lt_zero v = false ->
  float_ v = Ok f ->
  f = S754_nan \/ SFleb fzero f = true.
Proof.
  unfold lt_zero, float_.
  destruct v as [|b|z|g| | | |]; simpl; try discriminate; intros Hc Hf.
  - right. apply (float_of_int_ge0 (b2z b)); [|exact Hf].
    destruct b; discriminate.
  - right. apply (float_of_int_ge0 z); [|exact Hf].
    apply Z.ltb_ge. exact Hc.
  - injection Hf as <-.
    destruct g as [s|s| |s m e]; try destruct s; try discriminate; auto.
Qed.

(** Every Configuration that validation returns has its list and integers
    within their bounds; each of the two doubles is within its bound or
    is not a number. *)
Lemma returned_config_bounds (data : gmap string value) (cfg : Config) :
  _validate_config data = Ok cfg ->
  market_pairs cfg <> [] /\
  (exists z, as_int (max_cycles cfg) = Some z /\ 1 <= z <= 10000) /\
  (fetch_interval cfg = S754_nan \/ SFltb fzero (fetch_interval cfg) = true) /\
  (min_spread cfg = S754_nan \/ SFleb fzero (min_spread cfg) = true) /\
  (exists z, as_int (max_retries cfg) = Some z /\ 1 <= z <= 100).
Proof.
  unfold _validate_config.
  destruct (negb (isinstance_list _) || _) eqn:E1; [discriminate|].
  destruct (negb (isinstance_int (dict_get data "max_cycles")) || _) eqn:E2;
    [discriminate|].
  destruct (negb (isinstance_int_float (dict_get data "fetch_interval")) || _) eqn:E3;
    [discriminate|].
  destruct (negb (isinstance_int_float (dict_get data "min_spread")) || _) eqn:E4;
    [discriminate|].
  destruct (negb (isinstance_int (dict_get data "max_retries")) || _) eqn:E5;
    [discriminate|].
  destruct (float_ (dict_get data "fetch_interval")) as [fi|] eqn:Hfi;
    [|discriminate].
  destruct (float_ (dict_get data "min_spread")) as [fs|] eqn:Hfs;
    [|discriminate].
  intros [= <-]. cbn [market_pairs max_cycles fetch_interval min_spread max_retries].
  destruct (passed_list_check _ E1) as (x & l & ->).
  split; [discriminate|].
  split; [exact (passed_count_check 1 10000 _ E2)|].
  split; [exact (passed_positive_check _ fi E3 Hfi)|].
  split; [exact (passed_nonnegative_check _ fs E4 Hfs)|].
  exact (passed_count_check 1 100 _ E5).
Qed.

(** ** Claims about the configuration loader *)

(** C1, as amended.  When the resolved file parses to a mapping that has
    all five fields inside the documented bounds, and [float()] of
    [fetch_interval] and of [min_spread] yields a double (it always does
    for a float; for an integer it does unless the integer is too large),
    [load_config] returns the Configuration holding exactly the input list
    and integers and those two doubles. *)
Theorem load_returns_coerced_input
        (w : World) (path : option string) (p : string)
        (data : gmap string value)
        (pairs : list value) (cycles retries : Z) (interval spread : value)
        (fi fs : float) :
  outcome (resolve_path path) w = Ok p -> parses_to w p data ->
  data !! "market_pairs" = Some (VList pairs) -> pairs <> [] ->
  data !! "max_cycles" = Some (VInt cycles) -> 1 <= cycles <= 10000 ->
  data !! "fetch_interval" = Some interval -> number_gt0 interval ->
  float_ interval = Ok fi ->
  data !! "min_spread" = Some spread -> number_ge0 spread ->
  float_ spread = Ok fs ->
  data !! "max_retries" = Some (VInt retries) -> 1 <= retries <= 100 ->
  outcome (load_config path) w =
    Ok {| market_pairs := pairs;
          max_cycles := VInt cycles;
          fetch_interval := fi;
          min_spread := fs;
          max_retries := VInt retries |} /\
  (forall f, interval = VFloat f -> fi = f) /\
  (forall f, spread = VFloat f -> fs = f).
Proof.
  intros Hres Hparse Hp Hne Hc Hcr Hi Hgt Hfi Hs Hge Hfs Hr Hrr.
  split; [|split].
  - rewrite (load_config_parsed w path p data Hres Hparse).
    eapply validate_config_accepts; eassumption.
  - intros f ->. rewrite float_of_float in Hfi. congruence.
  - intros f ->. rewrite float_of_float in Hfs. congruence.
Qed.

Lemma sample_parses (data : gmap string value) :
  parses_to (Scenario.world_with data) "/bot/config.toml" data.
Proof. split; reflexivity. Qed.

Lemma default_path_bot (data : gmap string value) :
  outcome (resolve_path None) (Scenario.world_with data) = Ok "/bot/config.toml".
Proof. reflexivity. Qed.

(** The specification's concrete scenario. *)
Lemma load_returns_coerced_input_witness :
  outcome (load_config None) (Scenario.world_with Scenario.sample) =
    Ok {| market_pairs := [VStr "BTC-USD"; VStr "ETH-USD"];
          max_cycles := VInt 100;
          fetch_interval := Scenario.f5_0;
          min_spread := Scenario.f0_002;
          max_retries := VInt 3 |}.
Proof.
  refine (proj1 (load_returns_coerced_input
    (Scenario.world_with Scenario.sample) None "/bot/config.toml" Scenario.sample
    [VStr "BTC-USD"; VStr "ETH-USD"] 100 3
    (VFloat Scenario.f5_0) (VFloat Scenario.f0_002) Scenario.f5_0 Scenario.f0_002
    _ _ _ _ _ _ _ _ _ _ _ _ _ _)).
  - reflexivity.
  - split; reflexivity.
  - vm_compute; reflexivity.
  - discriminate.
  - vm_compute; reflexivity.
  - lia.
  - vm_compute; reflexivity.
  - right. eexists. split; reflexivity.
  - reflexivity.
  - vm_compute; reflexivity.
  - right. eexists. split; reflexivity.
  - reflexivity.
  - vm_compute; reflexivity.
  - lia.
Defined.

(** C1 as stated fails: an integer [fetch_interval] above zero but too
    large for a double passes every check, and [float()] then raises
    [OverflowError]; no Configuration is returned. *)
Lemma huge_interval_overflows :
  parses_to (Scenario.world_with Scenario.sample_big_interval)
            "/bot/config.toml" Scenario.sample_big_interval /\
  (forall f, exists v,
      Scenario.sample_big_interval !! field_name f = Some v /\ documented f v) /\
  outcome (load_config None) (Scenario.world_with Scenario.sample_big_interval) =
    Raise (OverflowError "int too large to convert to float").
Proof.
  split; [split; reflexivity|]. split.
  - intros []; eexists; (split; [vm_compute; reflexivity|]); simpl.
    + do 2 eexists; reflexivity.
    + eexists; split; [reflexivity | lia].
    + left. eexists; split; [reflexivity | reflexivity].
    + right. eexists; split; reflexivity.
    + eexists; split; [reflexivity | lia].
  - vm_compute. reflexivity.
Qed.

(** C2, as amended.  When the resolved file parses to a mapping in which
    some required field is rejected (missing, of a type its check does not
    take, or numerically out of range, a boolean counting as 0 or 1),
    [load_config] raises [ConfigError], and the message names the first
    rejected field in checking order; when [f] is the only rejected field
    the message names [f]. *)
Theorem load_rejects_with_config_error
        (w : World) (path : option string) (p : string)
        (data : gmap string value) (f : field) :
  outcome (resolve_path path) w = Ok p -> parses_to w p data ->
  rejected data f ->
  exists g msg,
    outcome (load_config path) w = Raise (ConfigError msg) /\
    str_contains (field_name g) msg = true /\
    rejected data g /\
    (forall h, checked_before h g -> ~ rejected data h) /\
    ((forall h, h <> f -> ~ rejected data h) -> g = f).
Proof.
  intros Hres Hparse Hf.
  destruct (validate_config_rejects data f Hf) as (g & msg & Hv & Hn & Hg & Hfirst).
  exists g, msg. rewrite (load_config_parsed w path p data Hres Hparse).
  repeat split; try assumption.
  intros Honly. destruct f, g; try reflexivity;
    exfalso; eapply Honly; try eassumption; discriminate.
Qed.

(** The specification's scenario [max_cycles=0], all else valid. *)
Lemma load_rejects_with_config_error_witness :
  exists g msg,
    outcome (load_config None) (Scenario.world_with Scenario.sample_zero_cycles) =
      Raise (ConfigError msg) /\
    str_contains (field_name g) msg = true /\
    rejected Scenario.sample_zero_cycles g /\
    (forall h, checked_before h g -> ~ rejected Scenario.sample_zero_cycles h) /\
    ((forall h, h <> MaxCycles -> ~ rejected Scenario.sample_zero_cycles h) ->
     g = MaxCycles).
Proof.
  apply (load_rejects_with_config_error
           (Scenario.world_with Scenario.sample_zero_cycles) None
           "/bot/config.toml" Scenario.sample_zero_cycles MaxCycles).
  - reflexivity.
  - split; reflexivity.
  - vm_compute. right; left. exists 0. split; [reflexivity | left; reflexivity].
Defined.

(** C2 as stated fails: [max_cycles = true] is present and is not an
    integer, every other field is within its documented bounds, and the
    load returns a Configuration instead of raising [ConfigError]. *)
Lemma boolean_cycles_not_rejected :
  Scenario.sample_bool_cycles !! "max_cycles" = Some (VBool true) /\
  ~ documented MaxCycles (VBool true) /\
  (forall f, f <> MaxCycles -> exists v,
      Scenario.sample_bool_cycles !! field_name f = Some v /\ documented f v) /\
  parses_to (Scenario.world_with Scenario.sample_bool_cycles)
            "/bot/config.toml" Scenario.sample_bool_cycles /\
  exists cfg,
    outcome (load_config None) (Scenario.world_with Scenario.sample_bool_cycles) =
      Ok cfg.
Proof.
  split; [vm_compute; reflexivity|].
  split; [intros (z & Hz & _); discriminate|].
  split.
  - intros [] Hne; try contradiction;
      eexists; (split; [vm_compute; reflexivity|]); simpl.
    + do 2 eexists; reflexivity.
    + right. eexists; split; reflexivity.
    + right. eexists; split; reflexivity.
    + eexists; split; [reflexivity | lia].
  - split; [split; reflexivity|]. eexists. vm_compute. reflexivity.
Qed.

(** C6 does not hold of the code: a [fetch_interval] that is not a number
    passes the test [interval <= 0], and the Configuration that comes back
    has a [fetch_interval] outside the documented bound [> 0].  Lemma
    [returned_config_bounds] says what every returned Configuration does
    satisfy. *)
Theorem nan_interval_returned_out_of_bounds :
  parses_to (Scenario.world_with Scenario.sample_nan_interval)
            "/bot/config.toml" Scenario.sample_nan_interval /\
  exists cfg,
    outcome (load_config None) (Scenario.world_with Scenario.sample_nan_interval) =
      Ok cfg /\
    fetch_interval cfg = S754_nan /\
    SFltb fzero (fetch_interval cfg) = false /\
    ~ in_bounds cfg.
Proof.
  split; [split; reflexivity|].
  eexists. split; [vm_compute; reflexivity|].
  split; [reflexivity|]. split; [reflexivity|].
  intros (_ & _ & H & _). discriminate H.
Qed.

(** C10.  Booleans pass the integer checks of [max_cycles] and
    [max_retries]: with [max_cycles = true] and the other fields valid,
    the load succeeds and the Configuration's [max_cycles] is the boolean,
    which equals 1 as an integer. *)
Theorem boolean_accepted_as_integer :
  (forall b, isinstance_int (VBool b) = true) /\
  negb (isinstance_int (VBool true)) || negb (int_between 1 (VBool true) 10000) = false /\
  negb (isinstance_int (VBool true)) || negb (int_between 1 (VBool true) 100) = false /\
  Scenario.sample_bool_cycles !! "max_cycles" = Some (VBool true) /\
  (forall f, f <> MaxCycles -> exists v,
      Scenario.sample_bool_cycles !! field_name f = Some v /\ documented f v) /\
  parses_to (Scenario.world_with Scenario.sample_bool_cycles)
            "/bot/config.toml" Scenario.sample_bool_cycles /\
  exists cfg,
    outcome (load_config None) (Scenario.world_with Scenario.sample_bool_cycles) =
      Ok cfg /\
    max_cycles cfg = VBool true /\
    as_int (max_cycles cfg) = Some 1.
Proof.
  split; [reflexivity|].
  split; [reflexivity|]. split; [reflexivity|].
  split; [vm_compute; reflexivity|].
  split.
  - intros [] Hne; try contradiction;
      eexists; (split; [vm_compute; reflexivity|]); simpl.
    + do 2 eexists; reflexivity.
    + right. eexists; split; reflexivity.
    + right. eexists; split; reflexivity.
    + eexists; split; [reflexivity | lia].
  - split; [split; reflexivity|].
    eexists. split; [vm_compute; reflexivity|]. split; reflexivity.
Qed.

(** ** Claims about path resolution *)

Lemma default_config_file_join (w : World) :
  import_cwd w <> "" -> endswith_sep (import_cwd w) = false ->
  DEFAULT_CONFIG_FILE w = import_cwd w +:+ "/config.toml".
Proof.
  intros Hne Hsep. unfold DEFAULT_CONFIG_FILE, os_path_join.
  rewrite (eqb_empty_false _ Hne), Hsep. reflexivity.
Qed.

(** C5, as amended.  First match wins among: the explicit path when it is
    supplied and not empty; else the value of [ARBBOT_CONFIG] when it is
    set and not empty; else the default path.  The file at that path is the
    only one probed and the only one the parser is given. *)
Theorem path_resolution_precedence (w : World) (path : option string) :
  (forall p, path = Some p -> p <> "" -> loads_from w path p) /\
  (forall e, absent path -> environ w !! CONFIG_PATH_ENV = Some e -> e <> "" ->
             loads_from w path e) /\
  (absent path -> absent (environ w !! CONFIG_PATH_ENV) ->
   loads_from w path (DEFAULT_CONFIG_FILE w)).
Proof.
  split; [|split].
  - intros p -> Hp. apply loads_from_resolved. unfold outcome.
    rewrite (resolve_path_explicit w p Hp). reflexivity.
  - intros e Ha He Hne. apply loads_from_resolved. unfold outcome.
    rewrite (resolve_path_absent w path Ha), (resolve_path_env w e He Hne).
    reflexivity.
  - intros Ha He. apply loads_from_resolved. unfold outcome.
    rewrite (resolve_path_absent w path Ha), (resolve_path_default w He).
    reflexivity.
Qed.

(** A different file at each tier: the explicit path wins over the
    override, the override over the default. *)
Lemma path_resolution_precedence_witness :
  loads_from (Scenario.tiers Scenario.env_override) (Some "/a.toml") "/a.toml" /\
  loads_from (Scenario.tiers Scenario.env_override) None "/e.toml" /\
  loads_from (Scenario.tiers ∅) None "/bot/config.toml".
Proof.
  split; [|split].
  - apply (proj1 (path_resolution_precedence
                    (Scenario.tiers Scenario.env_override) (Some "/a.toml")));
      [reflexivity | discriminate].
  - apply (proj1 (proj2 (path_resolution_precedence
                    (Scenario.tiers Scenario.env_override) None)));
      [left; reflexivity | vm_compute; reflexivity | discriminate].
  - apply (proj2 (proj2 (path_resolution_precedence (Scenario.tiers ∅) None)));
      [left; reflexivity | left; vm_compute; reflexivity].
Defined.

Example tiers_read_their_own_file :
  (max_cycles <$> result_value (outcome (load_config (Some "/a.toml"))
                   (Scenario.tiers Scenario.env_override))) = Some (VInt 1) /\
  (max_cycles <$> result_value (outcome (load_config None)
                   (Scenario.tiers Scenario.env_override))) = Some (VInt 2) /\
  (max_cycles <$> result_value (outcome (load_config None)
                   (Scenario.tiers ∅))) = Some (VInt 3).
Proof. repeat split; vm_compute; reflexivity. Qed.

(** C5 as stated fails: an explicit path that is supplied but empty is not
    the one used; the override named by [ARBBOT_CONFIG] is read instead.
    Likewise an override that is set but empty is passed over. *)
Lemma supplied_empty_path_not_used :
  outcome (resolve_path (Some "")) (Scenario.tiers Scenario.env_override) =
    Ok "/e.toml" /\
  files_read (trace (load_config (Some "")) (Scenario.tiers Scenario.env_override)) =
    ["/e.toml"] /\
  Scenario.env_empty_override !! CONFIG_PATH_ENV = Some "" /\
  outcome (resolve_path None) (Scenario.tiers Scenario.env_empty_override) =
    Ok "/bot/config.toml".
Proof. repeat split; vm_compute; reflexivity. Qed.

(** C8.  When the resolved path is not an existing regular file,
    [load_config] raises [ConfigError] saying the file was not found, with
    the resolved path in the message; the parser is never called. *)
Theorem missing_file_raises_not_found
        (w : World) (path : option string) (p : string) :
  outcome (resolve_path path) w = Ok p -> isfile w p = false ->
  outcome (load_config path) w =
    Raise (ConfigError ("Config file not found: " +:+ p)) /\
  str_contains "not found" ("Config file not found: " +:+ p) = true /\
  str_contains p ("Config file not found: " +:+ p) = true /\
  files_read (trace (load_config path) w) = [].
Proof.
  intros Hres Hf.
  destruct (outcome_resolve w path p Hres) as (t & Ht & _ & Hr).
  split; [|split; [|split]].
  - unfold outcome. rewrite (load_config_run w path p t Ht).
    unfold outcome. rewrite read_config_file_run, Hf. reflexivity.
  - apply (str_contains_app "not found" "Config file " (": " +:+ p)).
  - apply str_contains_suffix.
  - unfold trace. rewrite (load_config_run w path p t Ht).
    unfold trace. rewrite read_config_file_run, Hf.
    cbn [snd]. rewrite files_read_app, Hr. reflexivity.
Qed.

Lemma missing_file_raises_not_found_witness :
  outcome (load_config (Some "/nowhere.toml")) Scenario.bare =
    Raise (ConfigError "Config file not found: /nowhere.toml").
Proof.
  apply (proj1 (missing_file_raises_not_found Scenario.bare
                  (Some "/nowhere.toml") "/nowhere.toml" eq_refl eq_refl)).
Defined.

(** C9.  An explicit path equal to the empty string behaves as no path:
    the whole load is the same computation, resolution goes on to
    [ARBBOT_CONFIG] and then to the default; an [ARBBOT_CONFIG] set to the
    empty string is passed over for the default as well. *)
Theorem empty_string_falls_through (w : World) :
  load_config (Some "") w = load_config None w /\
  resolve_path (Some "") w = resolve_path None w /\
  (forall e, environ w !! CONFIG_PATH_ENV = Some e -> e <> "" ->
             outcome (resolve_path (Some "")) w = Ok e) /\
  (environ w !! CONFIG_PATH_ENV = None ->
   outcome (resolve_path (Some "")) w = Ok (DEFAULT_CONFIG_FILE w)) /\
  (environ w !! CONFIG_PATH_ENV = Some "" ->
   outcome (resolve_path (Some "")) w = Ok (DEFAULT_CONFIG_FILE w) /\
   outcome (resolve_path None) w = Ok (DEFAULT_CONFIG_FILE w)).
Proof.
  split; [reflexivity|]. split; [reflexivity|].
  unfold outcome.
  change (resolve_path (Some "") w) with (resolve_path None w).
  split; [|split].
  - intros e He Hne. rewrite (resolve_path_env w e He Hne). reflexivity.
  - intros He. rewrite resolve_path_default by (left; exact He). reflexivity.
  - intros He. rewrite resolve_path_default by (right; exact He). split; reflexivity.
Qed.

Lemma empty_string_falls_through_witness :
  outcome (resolve_path (Some "")) (Scenario.tiers Scenario.env_override) =
    Ok "/e.toml" /\
  outcome (resolve_path (Some "")) (Scenario.tiers ∅) = Ok "/bot/config.toml" /\
  outcome (resolve_path None) (Scenario.tiers Scenario.env_empty_override) =
    Ok "/bot/config.toml".
Proof.
  split; [|split].
  - apply (proj1 (proj2 (proj2 (empty_string_falls_through
                                  (Scenario.tiers Scenario.env_override))))).
    + vm_compute; reflexivity.
    + discriminate.
  - apply (proj1 (proj2 (proj2 (proj2 (empty_string_falls_through
                                         (Scenario.tiers ∅)))))).
    vm_compute; reflexivity.
  - apply (proj2 (proj2 (proj2 (proj2 (empty_string_falls_through
                                  (Scenario.tiers Scenario.env_empty_override)))))).
    vm_compute; reflexivity.
Defined.

(** ** Claims about the credential resolver *)

Section Resolver.
Variable w : World.
Variable name : string.
Hypothesis name_nonempty : name <> "".

Let stored : value := keyring_get_password w "arbbot" name.

(** A usable value in the keyring is returned after the keyring lookup
    alone. *)
Lemma get_api_key_from_keyring (s : string) :
  stored = VStr s -> s <> "" ->
  get_api_key (VStr name) w = (Ok (VStr s), [EvKeyring "arbbot" name]).
Proof.
  intros Hs Hne. unfold get_api_key, bind, assert_, keyring_get_password_.
  cbn [isinstance_str truthy andb].
  rewrite (eqb_empty_false _ name_nonempty). cbn [negb ret].
  fold stored. rewrite Hs. cbn.
  rewrite (eqb_empty_false _ Hne). cbn.
  rewrite (eqb_empty_false _ Hne). reflexivity.
Qed.

(** A false value in the keyring sends the lookup to the environment;
    what happens next depends on the variable alone. *)
Lemma get_api_key_fallback :
  truthy stored = false ->
  get_api_key (VStr name) w =
    (match environ w !! upper name with
     | Some e => if String.eqb e "" then Raise (CredentialError (not_found_message name))
                 else Ok (VStr e)
     | None => Raise (CredentialError (not_found_message name))
     end,
     [EvKeyring "arbbot" name; EvGetenv (upper name)]).
Proof.
  intros Hs. unfold get_api_key, bind, assert_, keyring_get_password_, os_getenv.
  cbn [isinstance_str truthy andb].
  rewrite (eqb_empty_false _ name_nonempty). cbn [negb ret].
  fold stored. rewrite Hs. cbn [negb].
  destruct (environ w !! upper name) as [e|]; cbn.
  - destruct (String.eqb e ""); reflexivity.
  - reflexivity.
Qed.

(** A true value in the keyring that is not a string trips the second
    assertion. *)
Lemma get_api_key_bad_store :
  truthy stored = true -> isinstance_str stored = false ->
  get_api_key (VStr name) w =
    (Raise (AssertionError "retrieved key must be a string or None"),
     [EvKeyring "arbbot" name]).
Proof.
  intros Ht Hs. unfold get_api_key, bind, assert_, keyring_get_password_.
  cbn [isinstance_str truthy andb].
  rewrite (eqb_empty_false _ name_nonempty). cbn [negb ret].
  fold stored. rewrite Ht. cbn [negb ret].
  rewrite Hs. destruct stored; try discriminate; reflexivity.
Qed.

End Resolver.

(** C3, as amended.  For a non-empty service name: a non-empty string held
    by the keyring under (arbbot, name) is returned, with no access to the
    environment and whatever the environment holds; when the keyring yields
    nothing or an empty (false) value, a non-empty value of the variable
    named by the upper-cased service name is returned; and every value
    returned is a non-empty string. *)
Theorem get_api_key_precedence (w : World) (name : string) :
  name <> "" ->
  (forall s, keyring_get_password w "arbbot" name = VStr s -> s <> "" ->
     outcome (get_api_key (VStr name)) w = Ok (VStr s) /\
     env_reads (trace (get_api_key (VStr name)) w) = [] /\
     forall env, outcome (get_api_key (VStr name)) (with_environ env w) = Ok (VStr s)) /\
  (forall e, truthy (keyring_get_password w "arbbot" name) = false ->
     environ w !! upper name = Some e -> e <> "" ->
     outcome (get_api_key (VStr name)) w = Ok (VStr e)) /\
  (forall v, outcome (get_api_key (VStr name)) w = Ok v ->
     exists s, v = VStr s /\ s <> "").
Proof.
  intros Hname. split; [|split].
  - intros s Hs Hne. unfold outcome, trace.
    rewrite (get_api_key_from_keyring w name Hname s Hs Hne).
    split; [reflexivity|]. split; [reflexivity|].
    intros env.
    rewrite (get_api_key_from_keyring (with_environ env w) name Hname s Hs Hne).
    reflexivity.
  - intros e Hs He Hne. unfold outcome.
    rewrite (get_api_key_fallback w name Hname Hs), He, (eqb_empty_false _ Hne).
    reflexivity.
  - intros v. unfold outcome.
    destruct (truthy (keyring_get_password w "arbbot" name)) eqn:Ht.
    + destruct (keyring_get_password w "arbbot" name) as [| | | |s| | |] eqn:Hk.
      5: { assert (Hne : s <> "") by (intros ->; discriminate Ht).
           rewrite (get_api_key_from_keyring w name Hname s Hk Hne).
           intros [= <-]. eauto. }
      all: try discriminate Ht.
      all: rewrite (get_api_key_bad_store w name Hname)
             by (rewrite Hk; first [exact Ht | reflexivity]).
      all: discriminate.
    + rewrite (get_api_key_fallback w name Hname Ht).
      destruct (environ w !! upper name) as [e|]; [|discriminate].
      destruct (String.eqb_spec e ""); [discriminate|].
      intros [= <-]. eauto.
Qed.

(** The keyring wins over a differing environment value; the environment
    serves when the keyring has nothing. *)
Lemma get_api_key_precedence_witness :
  outcome (get_api_key (VStr "kraken"))
          (Scenario.cred_world (VStr "ring-secret") Scenario.env_kraken) =
    Ok (VStr "ring-secret") /\
  outcome (get_api_key (VStr "kraken"))
          (Scenario.cred_world VNone Scenario.env_kraken) =
    Ok (VStr "env-secret").
Proof.
  split.
  - apply (proj1 (get_api_key_precedence
             (Scenario.cred_world (VStr "ring-secret") Scenario.env_kraken)
             "kraken" ltac:(discriminate)) "ring-secret");
      [reflexivity | discriminate].
  - apply (proj1 (proj2 (get_api_key_precedence
             (Scenario.cred_world VNone Scenario.env_kraken)
             "kraken" ltac:(discriminate))) "env-secret");
      [reflexivity | vm_compute; reflexivity | discriminate].
Defined.

(** C3 as stated fails: the keyring holds a value that is not a non-empty
    string (the integer 5), the variable KRAKEN holds a non-empty string,
    and the call does not return it; the assertion on the retrieved key
    fails instead. *)
Lemma nonstring_store_blocks_fallback :
  keyring_get_password (Scenario.cred_world (VInt 5) Scenario.env_kraken)
                       "arbbot" "kraken" = VInt 5 /\
  environ (Scenario.cred_world (VInt 5) Scenario.env_kraken) !! upper "kraken" =
    Some "env-secret" /\
  outcome (get_api_key (VStr "kraken"))
          (Scenario.cred_world (VInt 5) Scenario.env_kraken) =
    Raise (AssertionError "retrieved key must be a string or None") /\
  outcome (get_api_key (VStr "kraken"))
          (Scenario.cred_world (VInt 5) Scenario.env_kraken) <>
    Ok (VStr "env-secret").
Proof.
  split; [reflexivity|]. split; [vm_compute; reflexivity|].
  split; [vm_compute; reflexivity|]. vm_compute. discriminate.
Qed.

(** C4, as amended.  For a non-empty service name, when the keyring yields
    nothing or an empty (false) value and the variable named by the
    upper-cased service name is unset or empty, [get_api_key] raises
    [CredentialError] and the message contains the service name. *)
Theorem get_api_key_not_found (w : World) (name : string) :
  name <> "" ->
  truthy (keyring_get_password w "arbbot" name) = false ->
  absent (environ w !! upper name) ->
  outcome (get_api_key (VStr name)) w =
    Raise (CredentialError (not_found_message name)) /\
  str_contains name (not_found_message name) = true.
Proof.
  intros Hname Hs He. split.
  - unfold outcome. rewrite (get_api_key_fallback w name Hname Hs).
    destruct He as [-> | ->]; reflexivity.
  - apply (str_contains_app name "API key for '"
             "' not found in keyring or environment").
Qed.

(** The specification's scenario: nothing for kraken in the keyring,
    KRAKEN unset. *)
Lemma get_api_key_not_found_witness :
  outcome (get_api_key (VStr "kraken")) (Scenario.cred_world VNone ∅) =
    Raise (CredentialError
             "API key for 'kraken' not found in keyring or environment") /\
  str_contains "kraken"
    "API key for 'kraken' not found in keyring or environment" = true.
Proof.
  apply (get_api_key_not_found (Scenario.cred_world VNone ∅) "kraken").
  - discriminate.
  - reflexivity.
  - left. vm_compute. reflexivity.
Defined.

(** C4 as stated fails: neither source yields a non-empty string (the
    keyring holds the integer 5, KRAKEN is unset), and the call raises an
    assertion failure, not [CredentialError]. *)
Lemma nonstring_store_is_not_credential_error :
  keyring_get_password (Scenario.cred_world (VInt 5) ∅) "arbbot" "kraken" = VInt 5 /\
  environ (Scenario.cred_world (VInt 5) ∅) !! upper "kraken" = None /\
  outcome (get_api_key (VStr "kraken")) (Scenario.cred_world (VInt 5) ∅) =
    Raise (AssertionError "retrieved key must be a string or None") /\
  forall msg,
    outcome (get_api_key (VStr "kraken")) (Scenario.cred_world (VInt 5) ∅) <>
      Raise (CredentialError msg).
Proof.
  split; [reflexivity|]. split; [vm_compute; reflexivity|].
  split; [vm_compute; reflexivity|]. intros msg. vm_compute. discriminate.
Qed.

(** C7.  An argument that is not a non-empty string fails the first
    assertion: the call raises [AssertionError] with an empty trace, so
    before any lookup, and what it raises is not a [CredentialError]. *)
Theorem get_api_key_rejects_malformed_name (w : World) (v : value) :
  ~ (exists s, v = VStr s /\ s <> "") ->
  get_api_key v w =
    (Raise (AssertionError "service_name must be a non-empty string"), []) /\
  forall msg, outcome (get_api_key v) w <> Raise (CredentialError msg).
Proof.
  intros Hv.
  assert (Hrun : get_api_key v w =
    (Raise (AssertionError "service_name must be a non-empty string"), [])).
  { destruct v as [| | | |s| | |]; try reflexivity.
    destruct (String.eqb_spec s "") as [-> | Hne]; [reflexivity|].
    exfalso. apply Hv. eauto. }
  split; [exact Hrun|].
  intros msg. unfold outcome. rewrite Hrun. discriminate.
Qed.

Lemma get_api_key_rejects_malformed_name_witness :
  get_api_key (VStr "") (Scenario.cred_world (VStr "ring-secret") Scenario.env_kraken) =
    (Raise (AssertionError "service_name must be a non-empty string"), []) /\
  get_api_key (VInt 7) (Scenario.cred_world (VStr "ring-secret") Scenario.env_kraken) =
    (Raise (AssertionError "service_name must be a non-empty string"), []).
Proof.
  split.
  - apply (proj1 (get_api_key_rejects_malformed_name
                    (Scenario.cred_world (VStr "ring-secret") Scenario.env_kraken)
                    (VStr "") ltac:(intros (s & [= <-] & Hne); contradiction))).
  - apply (proj1 (get_api_key_rejects_malformed_name
                    (Scenario.cred_world (VStr "ring-secret") Scenario.env_kraken)
                    (VInt 7) ltac:(intros (s & Hs & _); discriminate))).
Defined.

(** * Further properties of the loader *)

Import Further.

Lemma append_nonempty_r (a b : string) : b <> "" -> a +:+ b <> "".
Proof. destruct a; [exact (fun H => H) | discriminate]. Qed.

Lemma default_config_file_nonempty (w : World) : DEFAULT_CONFIG_FILE w <> "".
Proof.
  unfold DEFAULT_CONFIG_FILE, os_path_join.
  change (String.prefix "/" "config.toml") with false. cbv iota.
  destruct (String.eqb (import_cwd w) "" || endswith_sep (import_cwd w));
    apply append_nonempty_r; discriminate.
Qed.

Lemma str_contains_app_r (n a b : string) :
  str_contains n b = true -> str_contains n (a +:+ b) = true.
Proof.
  intros H. induction a as [|c a IH]; [exact H|].
  change (String c a +:+ b) with (String c (a +:+ b)).
  cbn [str_contains]. rewrite IH. apply orb_true_r.
Qed.

(** The three ways a path is resolved, with the accesses each makes. *)
Lemma resolve_path_cases (w : World) (path : option string) :
  (exists p, path = Some p /\ p <> "" /\ resolve_path path w = (Ok p, [])) \/
  (exists e, absent path /\ environ w !! CONFIG_PATH_ENV = Some e /\ e <> "" /\
             resolve_path path w = (Ok e, [EvGetenv CONFIG_PATH_ENV])) \/
  (absent path /\ absent (environ w !! CONFIG_PATH_ENV) /\
   resolve_path path w = (Ok (DEFAULT_CONFIG_FILE w), [EvGetenv CONFIG_PATH_ENV])).
Proof.
  assert (Habs : absent path ->
    (exists e, absent path /\ environ w !! CONFIG_PATH_ENV = Some e /\ e <> "" /\
               resolve_path path w = (Ok e, [EvGetenv CONFIG_PATH_ENV])) \/
    (absent path /\ absent (environ w !! CONFIG_PATH_ENV) /\
     resolve_path path w = (Ok (DEFAULT_CONFIG_FILE w), [EvGetenv CONFIG_PATH_ENV]))).
  { intros Ha. rewrite (resolve_path_absent w path Ha).
    destruct (environ w !! CONFIG_PATH_ENV) as [e|] eqn:He.
    - destruct (String.eqb_spec e "") as [-> | Hne].
      + right. split; [exact Ha|]. split; [right; reflexivity|].
        apply resolve_path_default. right; exact He.
      + left. exists e. repeat split; try assumption.
        apply resolve_path_env; assumption.
    - right. split; [exact Ha|]. split; [left; reflexivity|].
      apply resolve_path_default. left; exact He. }
  destruct path as [p|].
  - destruct (String.eqb_spec p "") as [-> | Hp].
    + right. apply Habs. right; reflexivity.
    + left. exists p. repeat split; [exact Hp|].
      apply resolve_path_explicit. exact Hp.
  - right. apply Habs. left; reflexivity.
Qed.

Lemma env_reads_app (t1 t2 : list event) :
  env_reads (t1 ++ t2) = (env_reads t1 ++ env_reads t2)%list.
Proof. induction t1 as [|[] t1 IH]; simpl; rewrite ?IH; reflexivity. Qed.

Lemma keyring_reads_app (t1 t2 : list event) :
  keyring_reads (t1 ++ t2) = (keyring_reads t1 ++ keyring_reads t2)%list.
Proof. induction t1 as [|[] t1 IH]; simpl; rewrite ?IH; reflexivity. Qed.

Lemma read_config_file_touches_files_only (w : World) (p : string) :
  env_reads (trace (_read_config_file p) w) = [] /\
  keyring_reads (trace (_read_config_file p) w) = [].
Proof.
  unfold trace. rewrite read_config_file_run.
  destruct (isfile w p); [destruct (toml_load w p)|]; split; reflexivity.
Qed.

(** X1.  A file that exists but that the parser refuses, with whatever
    exception, makes [load_config] raise [ConfigError]; the message holds
    the resolved path and the text of the parser's exception, and the
    parser was given that path only. *)
Theorem parse_failure_is_config_error
        (w : World) (path : option string) (p : string) (e : exn) :
  outcome (resolve_path path) w = Ok p ->
  isfile w p = true -> toml_load w p = Raise e ->
  outcome (load_config path) w =
    Raise (ConfigError ("Failed to parse config (" +:+ p +:+ "): " +:+ exn_message e)) /\
  str_contains p ("Failed to parse config (" +:+ p +:+ "): " +:+ exn_message e) = true /\
  str_contains (exn_message e)
    ("Failed to parse config (" +:+ p +:+ "): " +:+ exn_message e) = true /\
  files_read (trace (load_config path) w) = [p].
Proof.
  intros Hres Hf Hl.
  destruct (outcome_resolve w path p Hres) as (t & Ht & _ & Hr).
  split; [|split; [|split]].
  - unfold outcome. rewrite (load_config_run w path p t Ht).
    unfold outcome. rewrite read_config_file_run, Hf, Hl. reflexivity.
  - apply (str_contains_app p "Failed to parse config (" ("): " +:+ exn_message e)).
  - do 2 apply str_contains_app_r. apply str_contains_suffix.
  - unfold trace. rewrite (load_config_run w path p t Ht).
    unfold trace. rewrite read_config_file_run, Hf, Hl.
    cbn [snd]. rewrite files_read_app, Hr. reflexivity.
Qed.

Lemma parse_failure_is_config_error_witness :
  outcome (load_config None) broken_file =
    Raise (ConfigError
      "Failed to parse config (/bot/config.toml): Invalid date or number (line 3 column 1 char 40)").
Proof.
  apply (proj1 (parse_failure_is_config_error broken_file None "/bot/config.toml"
                  (OtherError "Invalid date or number (line 3 column 1 char 40)")
                  eq_refl eq_refl eq_refl)).
Defined.

(** [float()] of something that passed an [isinstance(_, (int, float))]
    test fails only by overflow, and only on an integer. *)
Lemma float_raises_only_overflow (v : value) (e : exn) :
  isinstance_int_float v = true -> float_ v = Raise e ->
  e = OverflowError overflow_message /\
  exists z, v = VInt z /\ float_of_int z = Raise e.
Proof.
  unfold float_.
  destruct v as [|b|z|f| | | |]; simpl; try discriminate; intros _ H.
  - destruct b; vm_compute in H; discriminate.
  - split; [|eauto]. unfold float_of_int in H.
    destruct (binary_normalize prec emax z 0 false); try discriminate.
    injection H as <-. reflexivity.
Qed.

(** Every way [_validate_config] can raise. *)
Lemma validate_config_raises (data : gmap string value) (e : exn) :
  _validate_config data = Raise e ->
  (exists m, e = ConfigError m /\ In m validation_messages) \/
  (e = OverflowError overflow_message /\
   exists z, float_of_int z = Raise e /\
             (dict_get data "fetch_interval" = VInt z \/
              dict_get data "min_spread" = VInt z)).
Proof.
  unfold _validate_config.
  destruct (negb (isinstance_list _) || _) eqn:E1.
  { intros [= <-]. left. eexists. split; [reflexivity | simpl; tauto]. }
  destruct (negb (isinstance_int (dict_get data "max_cycles")) || _) eqn:E2.
  { intros [= <-]. left. eexists. split; [reflexivity | simpl; tauto]. }
  destruct (negb (isinstance_int_float (dict_get data "fetch_interval")) || _) eqn:E3.
  { intros [= <-]. left. eexists. split; [reflexivity | simpl; tauto]. }
  destruct (negb (isinstance_int_float (dict_get data "min_spread")) || _) eqn:E4.
  { intros [= <-]. left. eexists. split; [reflexivity | simpl; tauto]. }
  destruct (negb (isinstance_int (dict_get data "max_retries")) || _) eqn:E5.
  { intros [= <-]. left. eexists. split; [reflexivity | simpl; tauto]. }
  apply orb_false_iff in E3, E4. destruct E3 as [E3 _], E4 as [E4 _].
  apply negb_false_iff in E3, E4.
  destruct (float_ (dict_get data "fetch_interval")) as [fi|e1] eqn:Hfi.
  - destruct (float_ (dict_get data "min_spread")) as [fs|e2] eqn:Hfs;
      [discriminate|].
    intros [= <-]. right.
    destruct (float_raises_only_overflow _ _ E4 Hfs) as (-> & z & Hz & Hr).
    split; [reflexivity|]. exists z. split; [exact Hr | right; exact Hz].
  - intros [= <-]. right.
    destruct (float_raises_only_overflow _ _ E3 Hfi) as (-> & z & Hz & Hr).
    split; [reflexivity|]. exists z. split; [exact Hr | left; exact Hz].
Qed.

(** X2.  Validation raises [ConfigError] with one of five fixed texts, or
    [OverflowError] when an integer [fetch_interval] or [min_spread] that
    passed its check does not fit a double; it raises nothing else,
    whatever the types of the values in the mapping. *)
Theorem validation_raises_config_error_or_overflow
        (data : gmap string value) (e : exn) :
  _validate_config data = Raise e ->
  (exists m, e = ConfigError m /\ In m validation_messages) \/
  (e = OverflowError overflow_message /\
   exists z, float_of_int z = Raise e /\
             (dict_get data "fetch_interval" = VInt z \/
              dict_get data "min_spread" = VInt z)).
Proof. apply validate_config_raises. Qed.

Lemma validation_raises_config_error_or_overflow_witness :
  (exists m, ConfigError "max_cycles must be an integer between 1 and 10000" =
             ConfigError m /\ In m validation_messages) \/
  (ConfigError "max_cycles must be an integer between 1 and 10000" =
     OverflowError overflow_message /\
   exists z, float_of_int z =
             Raise (ConfigError "max_cycles must be an integer between 1 and 10000") /\
             (dict_get Scenario.sample_zero_cycles "fetch_interval" = VInt z \/
              dict_get Scenario.sample_zero_cycles "min_spread" = VInt z)).
Proof.
  apply (validation_raises_config_error_or_overflow Scenario.sample_zero_cycles).
  vm_compute. reflexivity.
Defined.

(** X3.  Whatever goes wrong in [load_config] (no file, a parser
    exception of any kind, a failed check), the caller sees [ConfigError],
    or [OverflowError] from the conversion of an oversized integer; no
    other exception leaves the loader. *)
Theorem load_raises_config_error_or_overflow
        (w : World) (path : option string) (e : exn) :
  outcome (load_config path) w = Raise e ->
  (exists m, e = ConfigError m) \/ e = OverflowError overflow_message.
Proof.
  destruct (resolve_path_total w path) as (p & t & Ht & _ & _).
  unfold outcome. rewrite (load_config_run w path p t Ht).
  unfold outcome. rewrite read_config_file_run. cbn [fst].
  destruct (isfile w p).
  - destruct (toml_load w p) as [raw | e']; cbn [fst bind_result].
    + intros H. destruct (validate_config_raises raw e H) as [(m & -> & _) | (-> & _)];
        eauto.
    + intros [= <-]. eauto.
  - cbn [fst bind_result]. intros [= <-]. eauto.
Qed.

Lemma load_raises_config_error_or_overflow_witness :
  (exists m, OverflowError "int too large to convert to float" = ConfigError m) \/
  OverflowError "int too large to convert to float" = OverflowError overflow_message.
Proof.
  apply (load_raises_config_error_or_overflow
           (Scenario.world_with Scenario.sample_big_interval) None).
  vm_compute. reflexivity.
Defined.

Lemma dict_get_insert_ne (data : gmap string value) (k key : string) (v : value) :
  k <> key -> dict_get (<[k:=v]> data) key = dict_get data key.
Proof. intros H. unfold dict_get. rewrite lookup_insert_ne by exact H. reflexivity. Qed.

Lemma dict_get_delete_ne (data : gmap string value) (k key : string) :
  k <> key -> dict_get (delete k data) key = dict_get data key.
Proof. intros H. unfold dict_get. rewrite lookup_delete_ne by exact H. reflexivity. Qed.

(** Validation reads the mapping through its five keys only. *)
Lemma validate_config_ext (d1 d2 : gmap string value) :
  (forall key, In key required_keys -> dict_get d1 key = dict_get d2 key) ->
  _validate_config d1 = _validate_config d2.
Proof.
  intros H. unfold _validate_config.
  rewrite (H "market_pairs"), (H "max_cycles"), (H "fetch_interval"),
    (H "min_spread"), (H "max_retries") by (simpl; tauto).
  reflexivity.
Qed.

(** X4.  Keys other than the five required ones are ignored: adding,
    changing or removing one changes nothing in what validation returns or
    raises. *)
Theorem unknown_keys_are_ignored (data : gmap string value) (k : string) (v : value) :
  ~ In k required_keys ->
  _validate_config (<[k:=v]> data) = _validate_config data /\
  _validate_config (delete k data) = _validate_config data.
Proof.
  intros Hk. split; apply validate_config_ext; intros key Hkey.
  - apply dict_get_insert_ne. intros ->. exact (Hk Hkey).
  - apply dict_get_delete_ne. intros ->. exact (Hk Hkey).
Qed.

Lemma unknown_keys_are_ignored_witness :
  _validate_config (<["log_level" := VStr "DEBUG"]> Scenario.sample) =
    _validate_config Scenario.sample.
Proof.
  apply (proj1 (unknown_keys_are_ignored Scenario.sample "log_level" (VStr "DEBUG")
                  ltac:(simpl; intuition discriminate))).
Defined.

(** X5.  The path handed to the file system is never the empty string:
    an empty explicit path and an empty override are passed over, and the
    default path is not empty.  That path is the one probed. *)
Theorem resolved_path_is_never_empty (w : World) (path : option string) (p : string) :
  outcome (resolve_path path) w = Ok p ->
  p <> "" /\ files_probed (trace (load_config path) w) = [p].
Proof.
  intros H. split.
  - unfold outcome in H.
    destruct (resolve_path_cases w path)
      as [(q & _ & Hq & Hr) | [(q & _ & _ & Hq & Hr) | (_ & _ & Hr)]];
      rewrite Hr in H; injection H as <-; try exact Hq.
    apply default_config_file_nonempty.
  - exact (proj1 (proj2 (loads_from_resolved w path p H))).
Qed.

Lemma resolved_path_is_never_empty_witness :
  "/bot/config.toml" <> "" /\
  files_probed (trace (load_config (Some ""))
                      (Scenario.tiers Scenario.env_empty_override)) =
    ["/bot/config.toml"].
Proof.
  apply (resolved_path_is_never_empty
           (Scenario.tiers Scenario.env_empty_override) (Some "") "/bot/config.toml").
  vm_compute. reflexivity.
Defined.

Lemma load_config_env_reads (w : World) (path : option string) (p : string)
      (t : list event) :
  resolve_path path w = (Ok p, t) ->
  env_reads (trace (load_config path) w) = env_reads t /\
  keyring_reads (trace (load_config path) w) = keyring_reads t.
Proof.
  intros Ht.
  destruct (read_config_file_touches_files_only w p) as [He Hk].
  unfold trace. rewrite (load_config_run w path p t Ht).
  cbn [snd]. rewrite env_reads_app, keyring_reads_app, He, Hk.
  rewrite !app_nil_r. split; reflexivity.
Qed.

(** X6.  [load_config] reads the environment only when no usable explicit
    path is given, then reads [ARBBOT_CONFIG] once and no other variable;
    it never looks into the keyring.  With a non-empty explicit path the
    whole load is the same under any environment. *)
Theorem load_config_environment_use (w : World) (path : option string) :
  keyring_reads (trace (load_config path) w) = [] /\
  (absent path -> env_reads (trace (load_config path) w) = [CONFIG_PATH_ENV]) /\
  (forall p, path = Some p -> p <> "" ->
     env_reads (trace (load_config path) w) = [] /\
     forall env, load_config path (with_environ env w) = load_config path w).
Proof.
  split; [|split].
  - destruct (resolve_path_cases w path)
      as [(q & _ & _ & Hr) | [(q & _ & _ & _ & Hr) | (_ & _ & Hr)]];
      rewrite (proj2 (load_config_env_reads w path _ _ Hr)); reflexivity.
  - intros Ha.
    destruct (resolve_path_cases w path)
      as [(q & -> & Hq & _) | [(q & _ & _ & _ & Hr) | (_ & _ & Hr)]].
    + destruct Ha as [Ha | Ha]; [discriminate | congruence].
    + rewrite (proj1 (load_config_env_reads w path _ _ Hr)); reflexivity.
    + rewrite (proj1 (load_config_env_reads w path _ _ Hr)); reflexivity.
  - intros p -> Hp. split.
    + rewrite (proj1 (load_config_env_reads w (Some p) p []
                        (resolve_path_explicit w p Hp))).
      reflexivity.
    + intros env.
      rewrite (load_config_run (with_environ env w) (Some p) p []
                 (resolve_path_explicit _ p Hp)).
      rewrite (load_config_run w (Some p) p [] (resolve_path_explicit w p Hp)).
      unfold outcome, trace. rewrite !read_config_file_run. reflexivity.
Qed.

Lemma load_config_environment_use_witness :
  env_reads (trace (load_config None) (Scenario.tiers Scenario.env_override)) =
    [CONFIG_PATH_ENV] /\
  load_config (Some "/a.toml") (with_environ ∅ (Scenario.tiers Scenario.env_override)) =
    load_config (Some "/a.toml") (Scenario.tiers Scenario.env_override).
Proof.
  split.
  - apply (proj1 (proj2 (load_config_environment_use
                           (Scenario.tiers Scenario.env_override) None))).
    left. reflexivity.
  - apply (proj2 (proj2 (proj2 (load_config_environment_use
                           (Scenario.tiers Scenario.env_override) (Some "/a.toml")))
                    "/a.toml" eq_refl ltac:(discriminate))).
Defined.

(** X7.  What [load_config] returns depends on the world through four
    things only: the value of [ARBBOT_CONFIG], the working directory at
    import, and, for the resolved path, whether it is a file and what the
    parser makes of it.  Other files, other variables and the keyring play
    no part. *)
Theorem load_config_depends_on_resolved_file_only
        (w w' : World) (path : option string) (p : string) :
  outcome (resolve_path path) w = Ok p ->
  environ w !! CONFIG_PATH_ENV = environ w' !! CONFIG_PATH_ENV ->
  import_cwd w = import_cwd w' ->
  isfile w p = isfile w' p -> toml_load w p = toml_load w' p ->
  load_config path w = load_config path w'.
Proof.
  intros Hres Henv Hcwd Hf Hl.
  destruct (outcome_resolve w path p Hres) as (t & Ht & _ & _).
  assert (Ht' : resolve_path path w' = (Ok p, t)).
  { rewrite <- Ht. unfold resolve_path, or_else, bind, os_getenv, DEFAULT_CONFIG_FILE.
    destruct path as [q|]; [destruct (String.eqb q "")|]; cbv beta;
      rewrite <- ?Henv; try reflexivity;
      (destruct (environ w !! CONFIG_PATH_ENV) as [s|];
       [destruct (String.eqb s "")|]; cbv beta; rewrite <- ?Hcwd; reflexivity). }
  rewrite (load_config_run w path p t Ht), (load_config_run w' path p t Ht').
  unfold outcome, trace. rewrite !read_config_file_run, <- Hf, <- Hl. reflexivity.
Qed.

Lemma load_config_depends_on_resolved_file_only_witness :
  load_config None (Scenario.tiers ∅) = load_config None (Scenario.world_with (Scenario.tier_file 3)).
Proof.
  apply (load_config_depends_on_resolved_file_only
           (Scenario.tiers ∅) (Scenario.world_with (Scenario.tier_file 3))
           None "/bot/config.toml"); reflexivity.
Defined.

Lemma load_config_ok_inv (w : World) (path : option string) (cfg : Config) :
  outcome (load_config path) w = Ok cfg ->
  exists p data,
    outcome (resolve_path path) w = Ok p /\ parses_to w p data /\
    _validate_config data = Ok cfg.
Proof.
  destruct (resolve_path_total w path) as (p & t & Ht & _ & _).
  unfold outcome at 1. rewrite (load_config_run w path p t Ht).
  unfold outcome at 1. rewrite read_config_file_run. cbn [fst].
  destruct (isfile w p) eqn:Hf; [|discriminate].
  destruct (toml_load w p) as [raw|e] eqn:Hl; cbn [fst bind_result]; [|discriminate].
  intros H. exists p, raw. split; [|split; [split; assumption | exact H]].
  unfold outcome. rewrite Ht. reflexivity.
Qed.

(** What validation guarantees of the record it returns, in the terms of
    its own tests. *)
Lemma validated_config_passes_checks (data : gmap string value) (cfg : Config) :
  _validate_config data = Ok cfg ->
  market_pairs cfg <> [] /\
  (exists z, as_int (max_cycles cfg) = Some z /\ 1 <= z <= 10000) /\
  SFleb (fetch_interval cfg) fzero = false /\
  SFltb (min_spread cfg) fzero = false /\
  (exists z, as_int (max_retries cfg) = Some z /\ 1 <= z <= 100).
Proof.
  intros H. destruct (returned_config_bounds data cfg H) as (H1 & H2 & H3 & H4 & H5).
  repeat split; try assumption.
  - destruct H3 as [-> | H3]; [reflexivity | apply gt0_not_le0; exact H3].
  - destruct H4 as [-> | H4]; [reflexivity | apply ge0_not_lt0; exact H4].
Qed.

(** X8.  Every Configuration [load_config] returns has a non-empty
    [market_pairs], a [max_cycles] in [1, 10000], a [max_retries] in
    [1, 100] (a boolean counting as 0 or 1), a [fetch_interval] for which
    [<= 0] is false and a [min_spread] for which [< 0] is false; this
    holds after the conversion of integers to doubles as well. *)
Theorem loaded_config_passes_checks
        (w : World) (path : option string) (cfg : Config) :
  outcome (load_config path) w = Ok cfg ->
  market_pairs cfg <> [] /\
  (exists z, as_int (max_cycles cfg) = Some z /\ 1 <= z <= 10000) /\
  SFleb (fetch_interval cfg) fzero = false /\
  SFltb (min_spread cfg) fzero = false /\
  (exists z, as_int (max_retries cfg) = Some z /\ 1 <= z <= 100).
Proof.
  intros H. destruct (load_config_ok_inv w path cfg H) as (p & data & _ & _ & Hv).
  exact (validated_config_passes_checks data cfg Hv).
Qed.

Lemma loaded_config_passes_checks_witness :
  [VStr "BTC-USD"; VStr "ETH-USD"] <> [] /\
  (exists z, as_int (VInt 100) = Some z /\ 1 <= z <= 10000) /\
  SFleb Scenario.f5_0 fzero = false /\
  SFltb Scenario.f0_002 fzero = false /\
  (exists z, as_int (VInt 3) = Some z /\ 1 <= z <= 100).
Proof.
  apply (loaded_config_passes_checks (Scenario.world_with Scenario.sample) None
           {| market_pairs := [VStr "BTC-USD"; VStr "ETH-USD"];
              max_cycles := VInt 100;
              fetch_interval := Scenario.f5_0;
              min_spread := Scenario.f0_002;
              max_retries := VInt 3 |}).
  vm_compute. reflexivity.
Defined.

Lemma asdict_get (c : Config) :
  dict_get (asdict c) "market_pairs" = VList (market_pairs c) /\
  dict_get (asdict c) "max_cycles" = max_cycles c /\
  dict_get (asdict c) "fetch_interval" = VFloat (fetch_interval c) /\
  dict_get (asdict c) "min_spread" = VFloat (min_spread c) /\
  dict_get (asdict c) "max_retries" = max_retries c.
Proof.
  unfold dict_get, asdict. repeat split;
    repeat (rewrite lookup_insert_ne by discriminate);
    rewrite lookup_insert_eq; reflexivity.
Qed.

Lemma count_check_passes (lo hi z : Z) (v : value) :
  as_int v = Some z -> lo <= z <= hi ->
  negb (isinstance_int v) || negb (int_between lo v hi) = false.
Proof.
  intros Hv [Hlo Hhi]. unfold int_between. rewrite Hv.
  apply Z.leb_le in Hlo, Hhi. rewrite Hlo, Hhi.
  destruct v; try discriminate; reflexivity.
Qed.

(** X9.  Validation is idempotent on what it returns: the fields of a
    returned Configuration, read back as a mapping, validate to that same
    Configuration. *)
Theorem revalidation_returns_same_config (data : gmap string value) (cfg : Config) :
  _validate_config data = Ok cfg ->
  _validate_config (asdict cfg) = Ok cfg.
Proof.
  intros H.
  destruct (validated_config_passes_checks data cfg H)
    as (Hp & (zc & Hzc & Hcr) & Hfi & Hfs & (zr & Hzr & Hrr)).
  destruct (asdict_get cfg) as (G1 & G2 & G3 & G4 & G5).
  unfold _validate_config. rewrite G1, G2, G3, G4, G5.
  destruct cfg as [pairs cycles fi fs retries].
  cbn [market_pairs max_cycles fetch_interval min_spread max_retries] in *.
  destruct pairs as [|x pairs]; [contradiction|].
  cbn [isinstance_list truthy negb orb list_items].
  rewrite (count_check_passes 1 10000 zc cycles Hzc Hcr),
    (count_check_passes 1 100 zr retries Hzr Hrr).
  unfold le_zero, lt_zero.
  cbn [isinstance_int_float as_num num_le0 num_lt0 negb orb].
  rewrite Hfi, Hfs, !float_of_float. reflexivity.
Qed.

Lemma revalidation_returns_same_config_witness :
  _validate_config
    (asdict {| market_pairs := [VStr "BTC-USD"; VStr "ETH-USD"];
               max_cycles := VBool true;
               fetch_interval := Scenario.f5_0;
               min_spread := Scenario.f0_002;
               max_retries := VInt 3 |}) =
  Ok {| market_pairs := [VStr "BTC-USD"; VStr "ETH-USD"];
        max_cycles := VBool true;
        fetch_interval := Scenario.f5_0;
        min_spread := Scenario.f0_002;
        max_retries := VInt 3 |}.
Proof.
  apply (revalidation_returns_same_config Scenario.sample_bool_cycles).
  vm_compute. reflexivity.
Defined.

(** X10.  Validation returns a Configuration exactly when no field is
    rejected and [float()] of [fetch_interval] and of [min_spread] both
    succeed. *)
Theorem validation_succeeds_iff (data : gmap string value) :
  (exists cfg, _validate_config data = Ok cfg) <->
  (forall f, ~ rejected data f) /\
  (exists fi, float_ (dict_get data "fetch_interval") = Ok fi) /\
  (exists fs, float_ (dict_get data "min_spread") = Ok fs).
Proof.
  split.
  - intros [cfg H]. split.
    + intros f Hf.
      destruct (validate_config_rejects data f Hf) as (g & msg & Hr & _).
      congruence.
    + revert H. unfold _validate_config.
      repeat (match goal with
              | |- context [if ?c then Raise _ else _] => destruct c; [discriminate|]
              end).
      destruct (float_ (dict_get data "fetch_interval")) as [fi|]; [|discriminate].
      destruct (float_ (dict_get data "min_spread")) as [fs|]; [|discriminate].
      eauto.
  - intros (Hok & (fi & Hfi) & (fs & Hfs)).
    unfold _validate_config.
    pose proof (rejected_market_pairs data) as H1.
    pose proof (rejected_max_cycles data) as H2.
    pose proof (rejected_fetch_interval data) as H3.
    pose proof (rejected_min_spread data) as H4.
    pose proof (rejected_max_retries data) as H5.
    destruct (negb (isinstance_list _) || _);
      [exfalso; apply (Hok MarketPairs), H1; reflexivity|].
    destruct (negb (isinstance_int (dict_get data "max_cycles")) || _);
      [exfalso; apply (Hok MaxCycles), H2; reflexivity|].
    destruct (negb (isinstance_int_float (dict_get data "fetch_interval")) || _);
      [exfalso; apply (Hok FetchInterval), H3; reflexivity|].
    destruct (negb (isinstance_int_float (dict_get data "min_spread")) || _);
      [exfalso; apply (Hok MinSpread), H4; reflexivity|].
    destruct (negb (isinstance_int (dict_get data "max_retries")) || _);
      [exfalso; apply (Hok MaxRetries), H5; reflexivity|].
    rewrite Hfi, Hfs. eexists. reflexivity.
Qed.

(** * Further properties of the credential resolver *)

(** The whole of [get_api_key] on a well-formed name, as one table. *)
Lemma get_api_key_table (w : World) (name : string) :
  name <> "" ->
  get_api_key (VStr name) w =
    if truthy (keyring_get_password w "arbbot" name) then
      (if isinstance_str (keyring_get_password w "arbbot" name)
       then Ok (keyring_get_password w "arbbot" name)
       else Raise (AssertionError "retrieved key must be a string or None"),
       [EvKeyring "arbbot" name])
    else
      (match environ w !! upper name with
       | Some e => if String.eqb e "" then Raise (CredentialError (not_found_message name))
                   else Ok (VStr e)
       | None => Raise (CredentialError (not_found_message name))
       end,
       [EvKeyring "arbbot" name; EvGetenv (upper name)]).
Proof.
  intros Hname.
  destruct (truthy (keyring_get_password w "arbbot" name)) eqn:Ht.
  - destruct (isinstance_str (keyring_get_password w "arbbot" name)) eqn:Hs.
    + destruct (keyring_get_password w "arbbot" name) as [| | | |s| | |] eqn:Hk;
        try discriminate.
      apply (get_api_key_from_keyring w name Hname s Hk).
      intros ->. discriminate Ht.
    + apply (get_api_key_bad_store w name Hname Ht Hs).
  - apply (get_api_key_fallback w name Hname Ht).
Qed.

(** X11.  On a well-formed name the keyring is asked first, once, under
    the service [arbbot] and with the name as given; the environment is
    read exactly when the keyring's answer is false, once, under the
    upper-cased name; no file is touched. *)
Theorem get_api_key_lookup_order (w : World) (name : string) :
  name <> "" ->
  trace (get_api_key (VStr name)) w =
    EvKeyring "arbbot" name ::
    (if truthy (keyring_get_password w "arbbot" name) then []
     else [EvGetenv (upper name)]) /\
  keyring_reads (trace (get_api_key (VStr name)) w) = [("arbbot", name)] /\
  files_probed (trace (get_api_key (VStr name)) w) = [] /\
  files_read (trace (get_api_key (VStr name)) w) = [].
Proof.
  intros Hname. unfold trace. rewrite (get_api_key_table w name Hname).
  destruct (truthy (keyring_get_password w "arbbot" name)); repeat split; reflexivity.
Qed.

Lemma get_api_key_lookup_order_witness :
  trace (get_api_key (VStr "kraken")) (Scenario.cred_world VNone Scenario.env_kraken) =
    [EvKeyring "arbbot" "kraken"; EvGetenv "KRAKEN"].
Proof.
  apply (proj1 (get_api_key_lookup_order
                  (Scenario.cred_world VNone Scenario.env_kraken) "kraken"
                  ltac:(discriminate))).
Defined.



(** X13.  A key that is returned comes from one of the two sources
    unchanged: it is the keyring's answer, or, the keyring's answer being
    false, the value of the variable. *)
Theorem get_api_key_provenance (w : World) (name : string) (v : value) :
  name <> "" ->
  outcome (get_api_key (VStr name)) w = Ok v ->
  v = keyring_get_password w "arbbot" name \/
  (truthy (keyring_get_password w "arbbot" name) = false /\
   exists e, environ w !! upper name = Some e /\ v = VStr e).
Proof.
  intros Hname. unfold outcome. rewrite (get_api_key_table w name Hname).
  destruct (truthy (keyring_get_password w "arbbot" name)); cbn [fst].
  - destruct (isinstance_str (keyring_get_password w "arbbot" name));
      [intros [= <-]; auto | discriminate].
  - destruct (environ w !! upper name) as [e|]; [|discriminate].
    destruct (String.eqb e ""); [discriminate|].
    intros [= <-]. eauto.
Qed.

Lemma get_api_key_provenance_witness :
  VStr "env-secret" =
    keyring_get_password (Scenario.cred_world (VStr "") Scenario.env_kraken)
                         "arbbot" "kraken" \/
  (truthy (keyring_get_password (Scenario.cred_world (VStr "") Scenario.env_kraken)
                                "arbbot" "kraken") = false /\
   exists e, environ (Scenario.cred_world (VStr "") Scenario.env_kraken)
               !! upper "kraken" = Some e /\ VStr "env-secret" = VStr e).
Proof.
  apply (get_api_key_provenance (Scenario.cred_world (VStr "") Scenario.env_kraken)
           "kraken" (VStr "env-secret") ltac:(discriminate)).
  vm_compute. reflexivity.
Defined.

(** X14.  What [get_api_key] does for a name depends on the world through
    two things only: the keyring entry of that name under [arbbot] and the
    variable named by the upper-cased name.  Entries of other services or
    names, other variables and the file system play no part. *)
Theorem get_api_key_depends_on_two_lookups (w w' : World) (name : string) :
  name <> "" ->
  keyring_get_password w "arbbot" name = keyring_get_password w' "arbbot" name ->
  environ w !! upper name = environ w' !! upper name ->
  get_api_key (VStr name) w = get_api_key (VStr name) w'.
Proof.
  intros Hname Hk He.
  rewrite (get_api_key_table w name Hname), (get_api_key_table w' name Hname).
  rewrite Hk, He. reflexivity.
Qed.

Lemma get_api_key_depends_on_two_lookups_witness :
  get_api_key (VStr "kraken")
    {| environ := Scenario.env_kraken;
       isfile := fun _ => true;
       toml_load := fun _ => Ok ∅;
       keyring_get_password := foreign_keyring;
       import_cwd := "/" |} =
  get_api_key (VStr "kraken") (Scenario.cred_world VNone Scenario.env_kraken).
Proof.
  apply get_api_key_depends_on_two_lookups; [discriminate | reflexivity | reflexivity].
Defined.




